(** * The pairing and relay core of [chat-backend/main.py]

    A shallow embedding of [ChatUser], [PairingManager] and the chat
    [websocket_endpoint], followed by the properties of the pairing queue,
    the session registry, the relay and the disconnect path.

    Modelling conventions.
    - A [WebSocket] object is represented by a handle (the order in which
      the framework created the connections).  [ChatUser] defines no
      [__eq__], so [==], [in] and [list.remove] compare object identity; the
      endpoint builds exactly one [ChatUser] per websocket, hence identity of
      chat users is identity of their websocket handle ([same_user]).
    - [active_pairs] is a Python [dict]: insertion ordered, one entry per
      key, assignment to an existing key replaces the value in place.
    - [await ws.send_json(m)] either goes through, recorded as the effect
      [SendJson ws m], or raises [WebSocketDisconnect] because the peer has
      gone.  Module [Live] holds the methods and the endpoint with the list
      [closed] of the websockets on which a send raises; the definitions of
      the same names outside [Live] are the runs in which every send goes
      through.
    - [asyncio] runs one coroutine at a time and switches only at [await].
      Every mutation of [waiting_users] and [active_pairs] below happens
      between two awaits, so a handler run is taken as one atomic step. *)

From Stdlib Require Import ZArith.
From stdpp Require Import base list strings.

Open Scope string_scope.
Open Scope list_scope.
#[local] Set Warnings "-register-all".

(** ** Values exchanged over the connection *)

(** What [json.loads] returns, and what [send_json] is given. *)
Inductive json : Type :=
| JNull
| JBool (b : bool)
| JInt (n : Z)
| JFloat (literal : string)
| JStr (s : string)
| JArr (elements : list json)
| JObj (items : list (string * json)).

Definition WebSocket := nat.

(** [class ChatUser] *)
Record ChatUser : Type := mkChatUser {
  username : string;
  websocket : WebSocket
}.

(** [u == v] on chat users (object identity). *)
Definition same_user (u v : ChatUser) : bool :=
  bool_decide (websocket u = websocket v).

(** [u in users] *)
Definition user_in (u : ChatUser) (users : list ChatUser) : bool :=
  existsb (same_user u) users.

(** [users.remove(u)]: drops the first element equal to [u]. *)
Fixpoint list_remove (u : ChatUser) (users : list ChatUser) : list ChatUser :=
  match users with
  | [] => []
  | v :: rest => if same_user u v then rest else v :: list_remove u rest
  end.

(** ** Python dictionaries with string keys *)

Module Dict.
Section Dict.
Context {V : Type}.

Definition t := list (string * V).

Fixpoint get (k : string) (d : t) : option V :=
  match d with
  | [] => None
  | (k', v) :: d' => if decide (k = k') then Some v else get k d'
  end.

(** [d[k] = v] *)
Fixpoint set (k : string) (v : V) (d : t) : t :=
  match d with
  | [] => [(k, v)]
  | (k', v') :: d' =>
      if decide (k = k') then (k, v) :: d' else (k', v') :: set k v d'
  end.

(** the dictionary left by [d.pop(k)] *)
Fixpoint del (k : string) (d : t) : t :=
  match d with
  | [] => []
  | (k', v') :: d' =>
      if decide (k = k') then del k d' else (k', v') :: del k d'
  end.

Definition keys (d : t) : list string := d.*1.
Definition values (d : t) : list V := d.*2.
End Dict.
Arguments t : clear implicits.
End Dict.

(** ** Effects and exceptions *)

Inductive effect : Type :=
| Accept (ws : WebSocket)
| Close (ws : WebSocket) (code : nat)
| SendJson (ws : WebSocket) (message : json).

Inductive exn : Type :=
| JSONDecodeError
| KeyError (key : json)
| IndexError
| TypeError
| WebSocketDisconnect.

Inductive result (A : Type) : Type :=
| Ok (a : A)
| Raise (e : exn).
Arguments Ok {A} a.
Arguments Raise {A} e.

(** [class PairingManager] *)
Record PairingManager : Type := mkPairingManager {
  waiting_users : list ChatUser;
  active_pairs : Dict.t (list ChatUser)
}.

(** [PairingManager.__init__] *)
Definition new_manager : PairingManager :=
  {| waiting_users := []; active_pairs := [] |}.

(** A method body: reads and updates the manager, emits effects in order,
    and either returns or raises.  What was done before a raise stays done. *)
Definition M (A : Type) : Type :=
  PairingManager -> result A * PairingManager * list effect.

#[export] Instance M_ret : MRet M := fun A a pm => (Ok a, pm, []).

#[export] Instance M_bind : MBind M := fun A B f c pm =>
  match c pm with
  | (Ok a, pm1, out1) =>
      match f a pm1 with
      | (r, pm2, out2) => (r, pm2, out1 ++ out2)
      end
  | (Raise e, pm1, out1) => (Raise e, pm1, out1)
  end.

Definition raise {A} (e : exn) : M A := fun pm => (Raise e, pm, []).
Definition get_manager : M PairingManager := fun pm => (Ok pm, pm, []).
Definition put_manager (pm' : PairingManager) : M unit := fun _ => (Ok tt, pm', []).
Definition send_json (ws : WebSocket) (message : json) : M unit :=
  fun pm => (Ok tt, pm, [SendJson ws message]).

(** [for x in xs: body(x)] *)
Fixpoint for_each {A} (xs : list A) (body : A -> M unit) : M unit :=
  match xs with
  | [] => mret tt
  | x :: rest => body x ;; for_each rest body
  end.

(** [xs[i]] on a list *)
Definition item {A} (xs : list A) (i : nat) : M A :=
  match xs !! i with
  | Some x => mret x
  | None => raise IndexError
  end.

(** [message[key]] on a decoded JSON value *)
Definition subscript (message : json) (key : string) : M json :=
  match message with
  | JObj items =>
      match Dict.get key items with
      | Some v => mret v
      | None => raise (KeyError (JStr key))
      end
  | _ => raise TypeError
  end.

(** Hashing a decoded JSON value used as a dictionary key: lists and dicts
    are unhashable; a string is looked up as itself; any other value hashes
    but equals no string key. *)
Definition as_key (k : json) : M (option string) :=
  match k with
  | JStr s => mret (Some s)
  | JArr _ | JObj _ => raise TypeError
  | _ => mret None
  end.

(** [k in self.active_pairs] *)
Definition contains (k : json) : M bool :=
  key ← as_key k;
  pm ← get_manager;
  mret (match key with
        | Some s => bool_decide (is_Some (Dict.get s (active_pairs pm)))
        | None => false
        end).

(** [self.active_pairs[k]] *)
Definition getitem (k : json) : M (list ChatUser) :=
  key ← as_key k;
  pm ← get_manager;
  match key ≫= (λ s, Dict.get s (active_pairs pm)) with
  | Some users => mret users
  | None => raise (KeyError k)
  end.

(** [self.active_pairs.pop(k)] *)
Definition pop (k : json) : M (list ChatUser) :=
  key ← as_key k;
  pm ← get_manager;
  match key with
  | Some s =>
      match Dict.get s (active_pairs pm) with
      | Some users =>
          put_manager {| waiting_users := waiting_users pm;
                         active_pairs := Dict.del s (active_pairs pm) |} ;;
          mret users
      | None => raise (KeyError k)
      end
  | None => raise (KeyError k)
  end.

(** ** [PairingManager] methods *)

Definition session_start_msg (session_id partner : string) : json :=
  JObj [("type", JStr "session_start");
        ("session_id", JStr session_id);
        ("partner", JStr partner)].

Definition session_end_msg (session_id : json) : json :=
  JObj [("type", JStr "session_end");
        ("session_id", session_id)].

Definition chat_message_msg (session_id : json) (user : string) (content : json) : json :=
  JObj [("type", JStr "chat_message");
        ("session_id", session_id);
        ("user", JStr user);
        ("message", content)].

(** [PairingManager.start_session] *)
Definition start_session (session_id : string) : M unit :=
  users ← getitem (JStr session_id);
  for_each users (λ user,
    first ← item users 0;
    partner ← (if same_user user first
               then second ← item users 1; mret (username second)
               else mret (username first));
    send_json (websocket user) (session_start_msg session_id partner)).

(** [PairingManager.add_user] *)
Definition add_user (user : ChatUser) : M unit :=
  pm ← get_manager;
  match waiting_users pm with
  | partner :: rest =>
      let session_id := username user +:+ "-" +:+ username partner in
      put_manager {| waiting_users := rest;
                     active_pairs := Dict.set session_id [user; partner] (active_pairs pm) |} ;;
      start_session session_id
  | [] =>
      put_manager {| waiting_users := waiting_users pm ++ [user];
                     active_pairs := active_pairs pm |}
  end.

(** [PairingManager.end_session] *)
Definition end_session (session_id : json) : M unit :=
  registered ← contains session_id;
  if registered : bool then
    users ← pop session_id;
    for_each users (λ user,
      send_json (websocket user) (session_end_msg session_id))
  else mret tt.

(** ** [websocket_endpoint] *)

(** [value == literal] for a decoded JSON value and a string literal. *)
Definition str_eq (value : json) (literal : string) : bool :=
  match value with
  | JStr s => bool_decide (s = literal)
  | _ => false
  end.

(** The relay loop of [websocket_endpoint]: [message["content"]] is read
    again on every turn. *)
Definition relay_loop (chat_user : ChatUser) (message session_id : json)
    (users : list ChatUser) : M unit :=
  for_each users (λ u,
    content ← subscript message "content";
    send_json (websocket u)
      (chat_message_msg session_id (username chat_user) content)).

(** One turn of the [while True] loop once [receive_text] has returned;
    [loads] is the outcome of [json.loads(data)], [None] when it raises. *)
Definition on_text (chat_user : ChatUser) (loads : option json) : M unit :=
  message ← (match loads with
             | Some value => mret value
             | None => raise JSONDecodeError
             end);
  ty ← subscript message "type";
  if str_eq ty "chat_message" then
    session_id ← subscript message "session_id";
    registered ← contains session_id;
    if registered : bool then
      users ← getitem session_id;
      relay_loop chat_user message session_id users
    else mret tt
  else
    ty ← subscript message "type";
    if str_eq ty "end_session" then
      session_id ← subscript message "session_id";
      end_session session_id
    else mret tt.

(** The [except WebSocketDisconnect] handler. *)
Definition on_disconnect (chat_user : ChatUser) : M unit :=
  pm ← get_manager;
  match find (λ entry, user_in chat_user entry.2) (active_pairs pm) with
  | Some (session_id, _) => end_session (JStr session_id)
  | None => mret tt
  end ;;
  pm ← get_manager;
  if user_in chat_user (waiting_users pm) then
    put_manager {| waiting_users := list_remove chat_user (waiting_users pm);
                   active_pairs := active_pairs pm |}
  else mret tt.

(** ** The server: connections, tasks and events *)

(** Outcome of [jwt.decode(token, ...)] followed by [payload.get("sub")]. *)
Inductive token : Type :=
| JWTError
| Payload (sub : option string).

(** What can happen to the server: a client connects with a token; the
    pending [receive_text] of a running endpoint returns a text; or it
    raises [WebSocketDisconnect]. *)
Inductive event : Type :=
| Connect (tok : token)
| Receive (ws : WebSocket) (loads : option json)
| Disconnect (ws : WebSocket).

Record System : Type := mkSystem {
  manager : PairingManager;        (* the global [pairing_manager] *)
  tasks : list ChatUser;           (* endpoints inside their [while True] loop *)
  next_socket : WebSocket;         (* handle of the next websocket created *)
  trace : list effect              (* everything done on the websockets so far *)
}.

Definition initial : System :=
  {| manager := new_manager; tasks := []; next_socket := 0; trace := [] |}.

Definition task_of (ws : WebSocket) (ts : list ChatUser) : option ChatUser :=
  find (λ u, bool_decide (websocket u = ws)) ts.

Definition drop_task (ws : WebSocket) (ts : list ChatUser) : list ChatUser :=
  filter (λ u, websocket u ≠ ws) ts.

(** [websocket_endpoint] up to the first [receive_text]. *)
Definition on_connect (s : System) (tok : token) : System :=
  let ws := next_socket s in
  match tok with
  | JWTError | Payload None =>
      {| manager := manager s; tasks := tasks s; next_socket := S ws;
         trace := trace s ++ [Close ws 1008] |}
  | Payload (Some name) =>
      let chat_user := {| username := name; websocket := ws |} in
      match add_user chat_user (manager s) with
      | (r, pm, out) =>
          {| manager := pm;
             tasks := match r with
                      | Ok _ => tasks s ++ [chat_user]
                      | Raise _ => tasks s
                      end;
             next_socket := S ws;
             trace := trace s ++ Accept ws :: out |}
      end
  end.

(** One event.  [None]: the event cannot happen (no endpoint is waiting on
    that websocket).  An exception other than [WebSocketDisconnect] is not
    caught: the endpoint coroutine ends and the manager is left as it is. *)
Definition step (s : System) (e : event) : option System :=
  match e with
  | Connect tok => Some (on_connect s tok)
  | Receive ws loads =>
      chat_user ← task_of ws (tasks s);
      match on_text chat_user loads (manager s) with
      | (r, pm, out) =>
          Some {| manager := pm;
                  tasks := match r with
                           | Ok _ => tasks s
                           | Raise _ => drop_task ws (tasks s)
                           end;
                  next_socket := next_socket s;
                  trace := trace s ++ out |}
      end
  | Disconnect ws =>
      chat_user ← task_of ws (tasks s);
      match on_disconnect chat_user (manager s) with
      | (_, pm, out) =>
          Some {| manager := pm;
                  tasks := drop_task ws (tasks s);
                  next_socket := next_socket s;
                  trace := trace s ++ out |}
      end
  end.

Fixpoint run (s : System) (es : list event) : option System :=
  match es with
  | [] => Some s
  | e :: rest => s' ← step s e; run s' rest
  end.

Inductive reachable : System -> Prop :=
| reachable_initial : reachable initial
| reachable_step s e s' : reachable s -> step s e = Some s' -> reachable s'.

(** Every client the manager refers to: the waiting list, then the members
    of each registered session. *)
Definition clients (pm : PairingManager) : list ChatUser :=
  waiting_users pm ++ concat (Dict.values (active_pairs pm)).

(** The messages sent on websocket [ws] within an effect list, in order. *)
Definition sent_to (ws : WebSocket) (out : list effect) : list json :=
  omap (λ e, match e with
             | SendJson ws' m => if decide (ws' = ws) then Some m else None
             | _ => None
             end) out.

(** The waiting list left by the last two lines of the disconnect handler. *)
Definition leave_queue (chat_user : ChatUser) (waiting : list ChatUser) : list ChatUser :=
  if user_in chat_user waiting then list_remove chat_user waiting else waiting.

(** ** Well-formed server states *)

(** No client is referenced twice by the manager, the dictionary has one
    entry per key, no two running endpoints share a websocket, and every
    websocket in use was created before [next_socket]. *)
Record wf (s : System) : Prop := mk_wf {
  wf_clients : NoDup (websocket <$> clients (manager s));
  wf_clients_bound : Forall (λ u, websocket u < next_socket s) (clients (manager s));
  wf_keys : NoDup (Dict.keys (active_pairs (manager s)));
  wf_tasks : NoDup (websocket <$> tasks s);
  wf_tasks_bound : Forall (λ u, websocket u < next_socket s) (tasks s)
}.

(** ** Shapes of inbound texts *)

(** A decoded object whose ["type"] is present and is neither
    ["chat_message"] nor ["end_session"]. *)
Definition unrecognized_type (loads : option json) : bool :=
  match loads with
  | Some (JObj items) =>
      match Dict.get "type" items with
      | Some ty => negb (str_eq ty "chat_message") && negb (str_eq ty "end_session")
      | None => false
      end
  | _ => false
  end.

(** The endpoint after an exception it does not catch: the coroutine is
    gone, the manager and the websockets are as they were. *)
Definition crashed (ws : WebSocket) (s : System) : System :=
  {| manager := manager s;
     tasks := drop_task ws (tasks s);
     next_socket := next_socket s;
     trace := trace s |}.

(** Shorthands for the examples. *)
Definition connect (name : string) : event := Connect (Payload (Some name)).
Definition text (items : list (string * json)) : option json := Some (JObj items).

(** [message.get(key)] on an outbound message. *)
Definition field (key : string) (message : json) : option json :=
  match message with
  | JObj items => Dict.get key items
  | _ => None
  end.

Definition alice : ChatUser := {| username := "a"; websocket := 0 |}.
Definition bob : ChatUser := {| username := "b"; websocket := 1 |}.

(** The server once ["a"] then ["b"] have connected. *)
Definition paired : System :=
  {| manager := {| waiting_users := []; active_pairs := [("b-a", [bob; alice])] |};
     tasks := [alice; bob];
     next_socket := 2;
     trace := [Accept 0; Accept 1;
               SendJson 1 (session_start_msg "b-a" "a");
               SendJson 0 (session_start_msg "b-a" "b")] |}.

(** The endpoint running on a websocket keeps the username it was started
    with. *)
Definition runs_as (ws : WebSocket) (name : string) (s : System) : Prop :=
  ws < next_socket s
  ∧ ∀ u, u ∈ tasks s -> websocket u = ws -> username u = name.

(** ** Proof automation for method bodies *)

Ltac run_M :=
  repeat (progress (cbn [mbind mret M_bind M_ret raise get_manager put_manager
                        as_key contains getitem pop item
                        waiting_users active_pairs option_bind
                        lookup list_lookup fst snd app]
                    || unfold mbind, mret, M_bind, M_ret, raise, get_manager,
                         put_manager, as_key, contains, getitem, pop, item)).

Ltac run_loop := repeat (progress (cbn [for_each]; unfold send_json; run_M)).

(** ** Further invariants of the server *)

(** Shape of a registry entry: the list is the pair [[user; partner]] in
    that order, the key is [user]'s name, a hyphen, [partner]'s name, and
    [partner]'s websocket is the older one. *)
Definition session_ok (entry : string * list ChatUser) : Prop :=
  ∃ user partner,
    entry.2 = [user; partner]
    ∧ entry.1 = username user +:+ "-" +:+ username partner
    ∧ websocket partner < websocket user.

(** A websocket that was created and that the manager no longer (or never)
    refers to. *)
Definition absent (ws : WebSocket) (s : System) : Prop :=
  ws < next_socket s ∧ ws ∉ websocket <$> clients (manager s).

(** The [send_json] calls of an effect list, in order. *)
Definition sends (out : list effect) : list (WebSocket * json) :=
  omap (λ e, match e with
             | SendJson ws m => Some (ws, m)
             | _ => None
             end) out.

(** The websocket an effect acts on. *)
Definition socket_of (e : effect) : WebSocket :=
  match e with
  | Accept ws | Close ws _ | SendJson ws _ => ws
  end.

(** What the trace says about accepted, refused and addressed websockets:
    every effect is on a websocket already created, a websocket is accepted
    at most once and never after or before being closed by the endpoint, and
    every send follows the accept of its websocket. *)
Record trace_ok (s : System) : Prop := mk_trace_ok {
  trace_sockets : Forall (λ e, socket_of e < next_socket s) (trace s);
  trace_clients : Forall (λ u, Accept (websocket u) ∈ trace s) (clients (manager s));
  trace_sends : ∀ ws m, SendJson ws m ∈ trace s -> Accept ws ∈ trace s;
  trace_closed : ∀ ws code, Close ws code ∈ trace s -> Accept ws ∉ trace s
}.

(** ** [ConnectionManager] *)

Module ConnectionManager.

(** [class ConnectionManager]: its only attribute, [active_connections]. *)
Record t : Type := mk { active_connections : list WebSocket }.

(** [ConnectionManager.__init__] *)
Definition new : t := {| active_connections := [] |}.

(** [ValueError]: [list.remove] on a missing element.  [RuntimeError]:
    [websocket.accept()] on a websocket that was accepted before. *)
Inductive error : Type := ValueError | RuntimeError.

(** [l.remove(x)]: drops the first element equal to [x]; [None] when there
    is none (Python raises [ValueError]). *)
Fixpoint list_remove (x : WebSocket) (l : list WebSocket) : option (list WebSocket) :=
  match l with
  | [] => None
  | y :: rest =>
      if decide (x = y) then Some rest
      else match list_remove x rest with
           | Some rest' => Some (y :: rest')
           | None => None
           end
  end.

(** [ConnectionManager.connect].  [accepted] tells whether the websocket
    was accepted before; [await websocket.accept()] then raises and the
    append is not reached. *)
Definition connect (self : t) (websocket : WebSocket) (accepted : bool)
    : error + t * list effect :=
  if accepted then inl RuntimeError
  else inr ({| active_connections := active_connections self ++ [websocket] |},
            [Accept websocket]).

(** [ConnectionManager.disconnect] *)
Definition disconnect (self : t) (websocket : WebSocket) : error + t :=
  match list_remove websocket (active_connections self) with
  | Some rest => inr {| active_connections := rest |}
  | None => inl ValueError
  end.

(** [ConnectionManager.send_personal_message] *)
Definition send_personal_message (message : json) (websocket : WebSocket) : list effect :=
  [SendJson websocket message].


End ConnectionManager.

(** ** The server when sends can fail *)

Module Live.

Section Sockets.

(** The websockets on which a send raises while the code at hand runs. *)
Variable closed : list WebSocket.

(** [await ws.send_json(message)] *)
Definition send_json (ws : WebSocket) (message : json) : M unit :=
  fun pm =>
    if bool_decide (ws ∈ closed) then (Raise WebSocketDisconnect, pm, [])
    else (Ok tt, pm, [SendJson ws message]).

(** [PairingManager.start_session] *)
Definition start_session (session_id : string) : M unit :=
  users ← getitem (JStr session_id);
  for_each users (λ user,
    first ← item users 0;
    partner ← (if same_user user first
               then second ← item users 1; mret (username second)
               else mret (username first));
    send_json (websocket user) (session_start_msg session_id partner)).

(** [PairingManager.add_user] *)
Definition add_user (user : ChatUser) : M unit :=
  pm ← get_manager;
  match waiting_users pm with
  | partner :: rest =>
      let session_id := username user +:+ "-" +:+ username partner in
      put_manager {| waiting_users := rest;
                     active_pairs := Dict.set session_id [user; partner] (active_pairs pm) |} ;;
      start_session session_id
  | [] =>
      put_manager {| waiting_users := waiting_users pm ++ [user];
                     active_pairs := active_pairs pm |}
  end.

(** [PairingManager.end_session] *)
Definition end_session (session_id : json) : M unit :=
  registered ← contains session_id;
  if registered : bool then
    users ← pop session_id;
    for_each users (λ user,
      send_json (websocket user) (session_end_msg session_id))
  else mret tt.

(** The relay loop of [websocket_endpoint]. *)
Definition relay_loop (chat_user : ChatUser) (message session_id : json)
    (users : list ChatUser) : M unit :=
  for_each users (λ u,
    content ← subscript message "content";
    send_json (websocket u)
      (chat_message_msg session_id (username chat_user) content)).

(** The body of the [try] for one received text. *)
Definition on_text (chat_user : ChatUser) (loads : option json) : M unit :=
  message ← (match loads with
             | Some value => mret value
             | None => raise JSONDecodeError
             end);
  ty ← subscript message "type";
  if str_eq ty "chat_message" then
    session_id ← subscript message "session_id";
    registered ← contains session_id;
    if registered : bool then
      users ← getitem session_id;
      relay_loop chat_user message session_id users
    else mret tt
  else
    ty ← subscript message "type";
    if str_eq ty "end_session" then
      session_id ← subscript message "session_id";
      end_session session_id
    else mret tt.

(** The [except WebSocketDisconnect] handler. *)
Definition on_disconnect (chat_user : ChatUser) : M unit :=
  pm ← get_manager;
  match find (λ entry, user_in chat_user entry.2) (active_pairs pm) with
  | Some (session_id, _) => end_session (JStr session_id)
  | None => mret tt
  end ;;
  pm ← get_manager;
  if user_in chat_user (waiting_users pm) then
    put_manager {| waiting_users := list_remove chat_user (waiting_users pm);
                   active_pairs := active_pairs pm |}
  else mret tt.

End Sockets.

(** The events of the server, each with the websockets that are closed
    while it is handled. *)
Inductive event : Type :=
| Connect (tok : token) (closed : list WebSocket)
| Receive (ws : WebSocket) (loads : option json) (closed : list WebSocket)
| Disconnect (ws : WebSocket) (closed : list WebSocket).

(** [websocket_endpoint] up to the first [receive_text].  [add_user] is
    called outside the [try]: whatever it raises ends the endpoint. *)
Definition on_connect (s : System) (tok : token) (closed : list WebSocket) : System :=
  let ws := next_socket s in
  match tok with
  | JWTError | Payload None =>
      {| manager := manager s; tasks := tasks s; next_socket := S ws;
         trace := trace s ++ [Close ws 1008] |}
  | Payload (Some name) =>
      let chat_user := {| username := name; websocket := ws |} in
      match add_user closed chat_user (manager s) with
      | (r, pm, out) =>
          {| manager := pm;
             tasks := match r with
                      | Ok _ => tasks s ++ [chat_user]
                      | Raise _ => tasks s
                      end;
             next_socket := S ws;
             trace := trace s ++ Accept ws :: out |}
      end
  end.

(** One turn of the [while True] loop with its [try]/[except]: a
    [WebSocketDisconnect] raised by a send in the body runs the handler for
    the endpoint's own client, after which the endpoint ends; any other
    exception ends the endpoint at once. *)
Definition on_receive (s : System) (ws : WebSocket) (chat_user : ChatUser)
    (loads : option json) (closed : list WebSocket) : System :=
  match on_text closed chat_user loads (manager s) with
  | (Ok _, pm, out) =>
      {| manager := pm; tasks := tasks s; next_socket := next_socket s;
         trace := trace s ++ out |}
  | (Raise WebSocketDisconnect, pm, out) =>
      match on_disconnect closed chat_user pm with
      | (_, pm', out') =>
          {| manager := pm'; tasks := drop_task ws (tasks s);
             next_socket := next_socket s; trace := trace s ++ out ++ out' |}
      end
  | (Raise _, pm, out) =>
      {| manager := pm; tasks := drop_task ws (tasks s);
         next_socket := next_socket s; trace := trace s ++ out |}
  end.

(** One event.  When [receive_text] raises [WebSocketDisconnect] the
    endpoint's own websocket is closed too. *)
Definition step (s : System) (e : event) : option System :=
  match e with
  | Connect tok closed => Some (on_connect s tok closed)
  | Receive ws loads closed =>
      chat_user ← task_of ws (tasks s);
      Some (on_receive s ws chat_user loads closed)
  | Disconnect ws closed =>
      chat_user ← task_of ws (tasks s);
      match on_disconnect (ws :: closed) chat_user (manager s) with
      | (_, pm, out) =>
          Some {| manager := pm;
                  tasks := drop_task ws (tasks s);
                  next_socket := next_socket s;
                  trace := trace s ++ out |}
      end
  end.

Fixpoint run (s : System) (es : list event) : option System :=
  match es with
  | [] => Some s
  | e :: rest => s' ← step s e; run s' rest
  end.

Inductive reachable : System -> Prop :=
| reachable_initial : reachable initial
| reachable_step s e s' : reachable s -> step s e = Some s' -> reachable s'.

End Live.

(** A run in which every send went through, replayed with the sends on
    [closed] websockets raising: the effects up to the first such send, and
    [WebSocketDisconnect] as the result when there is one. *)
Fixpoint cut (closed : list WebSocket) (r : result unit) (out : list effect)
    : result unit * list effect :=
  match out with
  | [] => (r, [])
  | SendJson ws m :: rest =>
      if bool_decide (ws ∈ closed) then (Raise WebSocketDisconnect, [])
      else let '(r', out') := cut closed r rest in (r', SendJson ws m :: out')
  | e :: rest => let '(r', out') := cut closed r rest in (r', e :: out')
  end.

Definition cut_run (closed : list WebSocket)
    (run : result unit * PairingManager * list effect)
    : result unit * PairingManager * list effect :=
  let '(r, pm, out) := run in
  let '(r', out') := cut closed r out in (r', pm, out').

(** The [session_end] sends of [end_session] when none fails. *)
Definition session_end_sends (sid : string) (users : list ChatUser) : list effect :=
  (λ u, SendJson (websocket u) (session_end_msg (JStr sid))) <$> users.

(** ** Malformed texts, by what the endpoint does with them *)

(** Skipped by the loop: a decoded object whose ["type"] is present and is
    neither ["chat_message"] nor ["end_session"]; or a ["chat_message"]
    without ["content"] whose ["session_id"] is a string, number, boolean or
    [null] that is not the id of a registered session. *)
Definition ignored_text (pm : PairingManager) (loads : option json) : bool :=
  match loads with
  | Some (JObj items) =>
      match Dict.get "type" items with
      | Some ty =>
          if str_eq ty "chat_message" then
            match Dict.get "content" items, Dict.get "session_id" items with
            | None, Some (JStr sid) =>
                match Dict.get sid (active_pairs pm) with
                | None => true
                | Some _ => false
                end
            | None, Some (JNull | JBool _ | JInt _ | JFloat _) => true
            | _, _ => false
            end
          else negb (str_eq ty "end_session")
      | None => false
      end
  | _ => false
  end.

(** Raising out of the endpoint: a text that does not decode, or decodes to
    something else than an object, or has no ["type"]; a ["chat_message"] or
    ["end_session"] without ["session_id"]; a ["chat_message"] without
    ["content"] whose ["session_id"] is the id of a registered session with
    members. *)
Definition fatal_text (pm : PairingManager) (loads : option json) : bool :=
  match loads with
  | None => true
  | Some (JObj items) =>
      match Dict.get "type" items with
      | None => true
      | Some ty =>
          if str_eq ty "chat_message" then
            match Dict.get "session_id" items with
            | None => true
            | Some (JStr sid) =>
                match Dict.get "content" items, Dict.get sid (active_pairs pm) with
                | None, Some (_ :: _) => true
                | _, _ => false
                end
            | Some _ => false
            end
          else if str_eq ty "end_session" then
            match Dict.get "session_id" items with
            | None => true
            | Some _ => false
            end
          else false
      end
  | Some _ => true
  end.

(** * Properties *)

(** ** Dictionaries *)

Section DictFacts.
Context {V : Type}.
Implicit Types (d : Dict.t V) (k : string) (v : V).

Lemma get_set_eq d k v : Dict.get k (Dict.set k v d) = Some v.
Proof.
  induction d as [|[k' v'] d IH]; simpl.
  - by rewrite decide_True.
  - destruct (decide (k = k')) as [->|Hne]; simpl.
    + by rewrite decide_True.
    + by rewrite decide_False.
Qed.

Lemma get_set_ne d k k' v : k' ≠ k -> Dict.get k' (Dict.set k v d) = Dict.get k' d.
Proof.
  intros Hne. induction d as [|[k0 v0] d IH]; simpl.
  - by rewrite decide_False.
  - destruct (decide (k = k0)) as [->|Hk]; simpl.
    + by rewrite !decide_False.
    + destruct (decide (k' = k0)); auto.
Qed.

Lemma get_del_eq d k : Dict.get k (Dict.del k d) = None.
Proof.
  induction d as [|[k' v'] d IH]; simpl; [done|].
  destruct (decide (k = k')); simpl; [done|].
  by rewrite decide_False.
Qed.

Lemma get_del_ne d k k' : k' ≠ k -> Dict.get k' (Dict.del k d) = Dict.get k' d.
Proof.
  intros Hne. induction d as [|[k0 v0] d IH]; simpl; [done|].
  destruct (decide (k = k0)) as [->|Hk]; simpl.
  - by rewrite decide_False.
  - destruct (decide (k' = k0)); auto.
Qed.

Lemma get_elem_of d k v : Dict.get k d = Some v -> v ∈ Dict.values d.
Proof.
  unfold Dict.values.
  induction d as [|[k' v'] d IH]; simpl; [done|].
  destruct (decide (k = k')).
  - intros [= ->]. left.
  - intros H. right. auto.
Qed.

Lemma del_sublist d k : Dict.del k d `sublist_of` d.
Proof.
  induction d as [|[k' v'] d IH]; simpl; [done|].
  destruct (decide (k = k')); by constructor.
Qed.

Lemma keys_set_in d k v k' : k' ∈ Dict.keys (Dict.set k v d) -> k' = k ∨ k' ∈ Dict.keys d.
Proof.
  unfold Dict.keys.
  induction d as [|[k0 v0] d IH]; simpl.
  - rewrite list_elem_of_singleton. auto.
  - destruct (decide (k = k0)) as [->|Hk]; simpl; rewrite !elem_of_cons; [tauto|].
    intros [->|H]; [tauto|]. destruct (IH H); tauto.
Qed.

Lemma keys_set_NoDup d k v : NoDup (Dict.keys d) -> NoDup (Dict.keys (Dict.set k v d)).
Proof.
  induction d as [|[k0 v0] d IH]; simpl.
  - intros _. apply NoDup_singleton.
  - unfold Dict.keys in *. simpl. rewrite NoDup_cons. intros [Hk0 Hd].
    destruct (decide (k = k0)) as [->|Hk]; simpl; apply NoDup_cons; split; auto.
    intros Hin. apply keys_set_in in Hin as [->|Hin]; done.
Qed.

Lemma keys_del_NoDup d k : NoDup (Dict.keys d) -> NoDup (Dict.keys (Dict.del k d)).
Proof.
  intros H. eapply sublist_NoDup; [exact H|].
  unfold Dict.keys. apply fmap_sublist, del_sublist.
Qed.
End DictFacts.

Lemma members_set_submseteq (d : Dict.t (list ChatUser)) k v :
  concat (Dict.values (Dict.set k v d)) ⊆+ v ++ concat (Dict.values d).
Proof.
  unfold Dict.values.
  induction d as [|[k' v'] d IH]; simpl.
  - done.
  - destruct (decide (k = k')); simpl.
    + apply submseteq_app; [done|]. apply submseteq_inserts_l. done.
    + etrans; [apply submseteq_app; [reflexivity|exact IH]|].
      rewrite !(assoc_L (++)). apply submseteq_app; [|done].
      by rewrite (comm (++)).
Qed.

Lemma members_del_sublist (d : Dict.t (list ChatUser)) k :
  concat (Dict.values (Dict.del k d)) `sublist_of` concat (Dict.values d).
Proof.
  unfold Dict.values.
  induction d as [|[k' v'] d IH]; simpl; [done|].
  destruct (decide (k = k')); simpl.
  - by apply sublist_inserts_l.
  - by apply sublist_app.
Qed.

(** ** Running method bodies *)

Lemma bind_Ok {A B} (c : M A) (f : A -> M B) pm a pm1 out1 :
  c pm = (Ok a, pm1, out1) ->
  (c ≫= f) pm = (let '(r, pm2, out2) := f a pm1 in (r, pm2, out1 ++ out2)).
Proof. intros H. unfold mbind, M_bind. rewrite H. done. Qed.

Lemma for_each_send {A} (xs : list A) (ws : A -> WebSocket) (msg : A -> json) pm :
  for_each xs (λ x, send_json (ws x) (msg x)) pm
  = (Ok tt, pm, (λ x, SendJson (ws x) (msg x)) <$> xs).
Proof.
  induction xs as [|x xs IH]; [done|].
  cbn [for_each]. unfold mbind, M_bind, send_json at 1. rewrite IH. done.
Qed.

Lemma end_session_registered pm sid users :
  Dict.get sid (active_pairs pm) = Some users ->
  end_session (JStr sid) pm
  = (Ok tt,
     {| waiting_users := waiting_users pm;
        active_pairs := Dict.del sid (active_pairs pm) |},
     (λ u, SendJson (websocket u) (session_end_msg (JStr sid))) <$> users).
Proof.
  intros Hget. unfold end_session. run_M. rewrite Hget.
  rewrite bool_decide_true by eauto. run_M. rewrite Hget. run_M.
  rewrite for_each_send. done.
Qed.

Lemma end_session_absent pm sid :
  Dict.get sid (active_pairs pm) = None ->
  end_session (JStr sid) pm = (Ok tt, pm, []).
Proof.
  intros Hget. unfold end_session. run_M. rewrite Hget.
  rewrite bool_decide_false by (intros [? [=]]). done.
Qed.

Lemma same_user_refl u : same_user u u = true.
Proof. unfold same_user. by rewrite bool_decide_true. Qed.

Lemma add_user_match user head rest pairs :
  let session_id := username user +:+ "-" +:+ username head in
  add_user user {| waiting_users := head :: rest; active_pairs := pairs |}
  = (Ok tt,
     {| waiting_users := rest;
        active_pairs := Dict.set session_id [user; head] pairs |},
     [SendJson (websocket user) (session_start_msg session_id (username head));
      SendJson (websocket head)
        (session_start_msg session_id
           (if same_user head user then username head else username user))]).
Proof.
  intros session_id. unfold add_user, start_session. run_M.
  fold session_id. rewrite get_set_eq. run_loop.
  rewrite same_user_refl. run_loop.
  destruct (same_user head user); done.
Qed.

Lemma add_user_wait user pairs :
  add_user user {| waiting_users := []; active_pairs := pairs |}
  = (Ok tt, {| waiting_users := [user]; active_pairs := pairs |}, []).
Proof. done. Qed.

Lemma relay_loop_content chat_user items session_id content users pm :
  Dict.get "content" items = Some content ->
  relay_loop chat_user (JObj items) session_id users pm
  = (Ok tt, pm,
     (λ u, SendJson (websocket u)
             (chat_message_msg session_id (username chat_user) content)) <$> users).
Proof.
  intros Hc. unfold relay_loop.
  induction users as [|u users IH]; [done|].
  cbn [for_each].
  rewrite (bind_Ok _ _ pm tt pm
             [SendJson (websocket u)
                (chat_message_msg session_id (username chat_user) content)]).
  - rewrite IH. done.
  - unfold mbind, M_bind, subscript. rewrite Hc. done.
Qed.

Lemma relay_loop_no_content chat_user items session_id users pm :
  Dict.get "content" items = None ->
  relay_loop chat_user (JObj items) session_id users pm
  = (match users with
     | [] => Ok tt
     | _ :: _ => Raise (KeyError (JStr "content"))
     end, pm, []).
Proof.
  intros Hc. unfold relay_loop. destruct users as [|u users]; [done|].
  cbn [for_each]. unfold mbind, M_bind, subscript. rewrite Hc. done.
Qed.

(** [on_text] on a decoded object, branch by branch. *)
Lemma on_text_chat_message chat_user items session_id pm :
  Dict.get "type" items = Some (JStr "chat_message") ->
  Dict.get "session_id" items = Some (JStr session_id) ->
  on_text chat_user (Some (JObj items)) pm
  = match Dict.get session_id (active_pairs pm) with
    | Some users => relay_loop chat_user (JObj items) (JStr session_id) users pm
    | None => (Ok tt, pm, [])
    end.
Proof.
  intros Hty Hsid. unfold on_text, subscript. run_M.
  rewrite Hty. run_M. cbn [str_eq]. rewrite bool_decide_true by done.
  rewrite Hsid. run_M.
  destruct (Dict.get session_id (active_pairs pm)) as [users|] eqn:Hget.
  - rewrite bool_decide_true by eauto. run_M. rewrite Hget. run_M.
    destruct (relay_loop _ _ _ _ pm) as [[r pm'] out]. done.
  - rewrite bool_decide_false by (intros [? [=]]). done.
Qed.

Lemma on_text_end_session chat_user items session_id pm :
  Dict.get "type" items = Some (JStr "end_session") ->
  Dict.get "session_id" items = Some session_id ->
  on_text chat_user (Some (JObj items)) pm = end_session session_id pm.
Proof.
  intros Hty Hsid. unfold on_text, subscript. run_M.
  rewrite Hty. run_M. cbn [str_eq]. rewrite bool_decide_false by done.
  run_M. cbn [str_eq]. rewrite bool_decide_true by done.
  rewrite Hsid. run_M.
  destruct (end_session session_id pm) as [[r pm'] out]. done.
Qed.

Lemma on_text_other_type chat_user items ty pm :
  Dict.get "type" items = Some ty ->
  str_eq ty "chat_message" = false ->
  str_eq ty "end_session" = false ->
  on_text chat_user (Some (JObj items)) pm = (Ok tt, pm, []).
Proof.
  intros Hty H1 H2. unfold on_text, subscript. run_M.
  rewrite Hty. run_M. rewrite H1. run_M. rewrite H2. done.
Qed.

Lemma str_eq_true v lit : str_eq v lit = true -> v = JStr lit.
Proof. destruct v; simpl; try done. intros ->%bool_decide_eq_true. done. Qed.

Lemma on_text_inv chat_user loads pm :
  (∃ e, on_text chat_user loads pm = (Raise e, pm, []))
  ∨ on_text chat_user loads pm = (Ok tt, pm, [])
  ∨ (∃ sid users content,
       Dict.get sid (active_pairs pm) = Some users ∧
       on_text chat_user loads pm
       = (Ok tt, pm,
          (λ u, SendJson (websocket u)
                  (chat_message_msg (JStr sid) (username chat_user) content)) <$> users))
  ∨ (∃ sid users,
       Dict.get sid (active_pairs pm) = Some users ∧
       on_text chat_user loads pm
       = (Ok tt,
          {| waiting_users := waiting_users pm;
             active_pairs := Dict.del sid (active_pairs pm) |},
          (λ u, SendJson (websocket u) (session_end_msg (JStr sid))) <$> users)).
Proof.
  destruct loads as [message|]; [|left; by eexists].
  destruct message as [| | | | | |items]; try (left; by eexists).
  destruct (Dict.get "type" items) as [ty|] eqn:Hty; cycle 1.
  { left. unfold on_text, subscript. run_M. rewrite Hty. by eexists. }
  destruct (str_eq ty "chat_message") eqn:Hchat.
  - apply str_eq_true in Hchat as ->.
    destruct (Dict.get "session_id" items) as [k|] eqn:Hsid; cycle 1.
    { left. unfold on_text, subscript. run_M. rewrite Hty. run_M. cbn [str_eq].
      rewrite bool_decide_true by done. rewrite Hsid. by eexists. }
    destruct k as [| | | |sid| |];
      try (unfold on_text, subscript; run_M; rewrite Hty; run_M; cbn [str_eq];
           rewrite bool_decide_true by done; rewrite Hsid; run_M; by eauto).
    rewrite (on_text_chat_message _ _ sid) by done.
    destruct (Dict.get sid (active_pairs pm)) as [users|] eqn:Hget; [|by auto].
    destruct (Dict.get "content" items) as [content|] eqn:Hc.
    + right; right; left. exists sid, users, content. split; [done|].
      by apply relay_loop_content.
    + rewrite relay_loop_no_content by done. destruct users; eauto.
  - destruct (str_eq ty "end_session") eqn:Hend; cycle 1.
    { right; left. by eapply on_text_other_type. }
    apply str_eq_true in Hend as ->.
    destruct (Dict.get "session_id" items) as [k|] eqn:Hsid; cycle 1.
    { left. unfold on_text, subscript. run_M. rewrite Hty. run_M. cbn [str_eq].
      rewrite bool_decide_false by done. run_M. cbn [str_eq].
      rewrite bool_decide_true by done. rewrite Hsid. by eexists. }
    rewrite (on_text_end_session _ _ k) by done.
    destruct k as [| | | |sid| |]; try (by eauto).
    destruct (Dict.get sid (active_pairs pm)) as [users|] eqn:Hget.
    + right; right; right. exists sid, users. split; [done|].
      by apply end_session_registered.
    + right; left. by apply end_session_absent.
Qed.

(** ** The disconnect handler *)

Lemma user_in_spec a users :
  user_in a users = true ↔ websocket a ∈ websocket <$> users.
Proof.
  unfold user_in, same_user. induction users as [|u users IH]; simpl.
  - split; [done|]. by intros ?%elem_of_nil.
  - rewrite orb_true_iff, IH, elem_of_cons, bool_decide_eq_true. done.
Qed.

Lemma elem_of_concat {A} (x : A) (ls : list (list A)) :
  x ∈ concat ls ↔ ∃ l, x ∈ l ∧ l ∈ ls.
Proof.
  rewrite list_elem_of_In, in_concat. split.
  - intros (l & Hl & Hx). exists l. by rewrite !list_elem_of_In.
  - intros (l & Hx & Hl). exists l. by rewrite <-!list_elem_of_In.
Qed.

Lemma list_remove_sublist a users : list_remove a users `sublist_of` users.
Proof.
  induction users as [|u users IH]; simpl; [done|].
  destruct (same_user a u); by constructor.
Qed.

Lemma find_get (d : Dict.t (list ChatUser)) (P : string * list ChatUser -> bool) sid users :
  NoDup (Dict.keys d) ->
  find P d = Some (sid, users) ->
  Dict.get sid d = Some users.
Proof.
  unfold Dict.keys. induction d as [|[k v] d IH]; simpl; [done|].
  rewrite NoDup_cons. intros [Hk Hd]. destruct (P (k, v)).
  - intros [= -> ->]. by rewrite decide_True.
  - intros Hfind. rewrite decide_False; [auto|].
    intros ->. apply Hk. apply find_some in Hfind as [Hin _].
    apply list_elem_of_In in Hin. by apply (list_elem_of_fmap_2 fst) in Hin.
Qed.

Lemma find_member (d : Dict.t (list ChatUser)) a sid users :
  NoDup (websocket <$> concat (Dict.values d)) ->
  Dict.get sid d = Some users ->
  user_in a users = true ->
  find (λ entry, user_in a entry.2) d = Some (sid, users).
Proof.
  unfold Dict.values. intros Hnd Hget Hin.
  induction d as [|[k v] d IH]; simpl in *; [done|].
  rewrite fmap_app in Hnd. apply NoDup_app in Hnd as (_ & Hdisj & Hd).
  destruct (decide (sid = k)) as [->|Hk].
  - injection Hget as ->. by rewrite Hin.
  - destruct (user_in a v) eqn:Hv; [|auto].
    exfalso. apply (Hdisj (websocket a)); [by apply user_in_spec|].
    apply get_elem_of in Hget. unfold Dict.values in Hget.
    apply user_in_spec in Hin.
    apply list_elem_of_fmap in Hin as (u & Hu & Hin).
    rewrite Hu. apply list_elem_of_fmap_2, elem_of_concat. eauto.
Qed.

Lemma on_disconnect_eq chat_user pm :
  NoDup (Dict.keys (active_pairs pm)) ->
  on_disconnect chat_user pm
  = match find (λ entry, user_in chat_user entry.2) (active_pairs pm) with
    | Some (sid, users) =>
        (Ok tt,
         {| waiting_users := leave_queue chat_user (waiting_users pm);
            active_pairs := Dict.del sid (active_pairs pm) |},
         (λ u, SendJson (websocket u) (session_end_msg (JStr sid))) <$> users)
    | None =>
        (Ok tt,
         {| waiting_users := leave_queue chat_user (waiting_users pm);
            active_pairs := active_pairs pm |},
         [])
    end.
Proof.
  intros Hkeys. unfold on_disconnect, leave_queue. run_M.
  destruct (find _ (active_pairs pm)) as [[sid users]|] eqn:Hfind.
  - apply find_get in Hfind; [|done].
    rewrite (end_session_registered _ _ users) by done. run_M.
    destruct (user_in chat_user (waiting_users pm)); run_M; by rewrite app_nil_r.
  - run_M. destruct pm as [w p]; simpl.
    destruct (user_in chat_user w); done.
Qed.

(** ** Invariants of the server *)

Lemma submseteq_NoDup {A} (l k : list A) : l ⊆+ k -> NoDup k -> NoDup l.
Proof.
  intros [k' Hk]%submseteq_Permutation Hnd.
  rewrite Hk in Hnd. by apply NoDup_app in Hnd as [? _].
Qed.

Lemma submseteq_Forall {A} (P : A -> Prop) (l k : list A) :
  l ⊆+ k -> Forall P k -> Forall P l.
Proof.
  rewrite !Forall_forall. intros Hsub HP x Hx.
  eapply HP, elem_of_submseteq; eauto.
Qed.

Lemma clients_del pm sid :
  clients {| waiting_users := waiting_users pm;
             active_pairs := Dict.del sid (active_pairs pm) |}
  ⊆+ clients pm.
Proof.
  unfold clients; simpl. apply submseteq_app; [done|].
  apply sublist_submseteq, members_del_sublist.
Qed.

Lemma clients_leave_queue chat_user w d d' :
  concat (Dict.values d') ⊆+ concat (Dict.values d) ->
  clients {| waiting_users := leave_queue chat_user w; active_pairs := d' |}
  ⊆+ clients {| waiting_users := w; active_pairs := d |}.
Proof.
  intros H. unfold clients, leave_queue; simpl. apply submseteq_app; [|done].
  destruct (user_in chat_user w); [|done].
  apply sublist_submseteq, list_remove_sublist.
Qed.

Lemma clients_add_user user pm r pm' out :
  add_user user pm = (r, pm', out) ->
  clients pm' ⊆+ user :: clients pm
  ∧ (NoDup (Dict.keys (active_pairs pm)) -> NoDup (Dict.keys (active_pairs pm'))).
Proof.
  destruct pm as [[|head rest] pairs].
  - rewrite add_user_wait. intros [= <- <- <-]. done.
  - rewrite add_user_match. intros [= <- <- <-]. split.
    + unfold clients; simpl.
      etrans; [apply submseteq_app; [reflexivity|apply members_set_submseteq]|].
      simpl. apply Permutation_submseteq.
      rewrite <-!Permutation_middle. done.
    + apply keys_set_NoDup.
Qed.

Lemma drop_task_sublist ws ts : drop_task ws ts `sublist_of` ts.
Proof. apply sublist_filter. Qed.

Lemma wf_shrink s pm' ts' out :
  wf s ->
  clients pm' ⊆+ clients (manager s) ->
  NoDup (Dict.keys (active_pairs pm')) ->
  ts' ⊆+ tasks s ->
  wf {| manager := pm'; tasks := ts'; next_socket := next_socket s; trace := out |}.
Proof.
  intros [H1 H2 H3 H4 H5] Hc Hk Ht. split; simpl; try done.
  - eapply submseteq_NoDup; [|exact H1]. by apply fmap_submseteq.
  - by eapply submseteq_Forall.
  - eapply submseteq_NoDup; [|exact H4]. by apply fmap_submseteq.
  - by eapply submseteq_Forall.
Qed.

Lemma wf_initial : wf initial.
Proof. split; simpl; constructor. Qed.

Lemma wf_on_connect s tok : wf s -> wf (on_connect s tok).
Proof.
  intros Hwf. 
  assert (Hgrow : ∀ l : list ChatUser,
             Forall (λ u, websocket u < next_socket s) l ->
             Forall (λ u, websocket u < S (next_socket s)) l).
  { intros l Hl. eapply Forall_impl; [exact Hl|]. simpl; intros; lia. }
  assert (Hfresh : ∀ l : list ChatUser,
             Forall (λ u, websocket u < next_socket s) l ->
             next_socket s ∉ websocket <$> l).
  { intros l Hl (u & Hu & Hin)%list_elem_of_fmap.
    rewrite Forall_forall in Hl. apply Hl in Hin. lia. }
  destruct Hwf as [H1 H2 H3 H4 H5].
  unfold on_connect. destruct tok as [|[name|]]; try (split; simpl; by auto).
  set (chat_user := {| username := name; websocket := next_socket s |}).
  destruct (add_user chat_user (manager s)) as [[r pm] out] eqn:Hadd.
  apply clients_add_user in Hadd as [Hc Hk].
  assert (Hts : match r with Ok _ => tasks s ++ [chat_user] | Raise _ => tasks s end
                ⊆+ chat_user :: tasks s).
  { destruct r; [|by apply submseteq_cons].
    apply Permutation_submseteq. by rewrite <-Permutation_cons_append. }
  split; simpl.
  - eapply submseteq_NoDup; [by apply fmap_submseteq|].
    simpl. apply NoDup_cons; auto.
  - eapply submseteq_Forall; [exact Hc|]. constructor; simpl; [lia|auto].
  - auto.
  - eapply submseteq_NoDup; [by apply fmap_submseteq|].
    simpl. apply NoDup_cons; auto.
  - eapply submseteq_Forall; [exact Hts|]. constructor; simpl; [lia|auto].
Qed.

Lemma wf_step s e s' : wf s -> step s e = Some s' -> wf s'.
Proof.
  intros Hwf. destruct e as [tok|ws loads|ws]; simpl.
  - intros [= <-]. by apply wf_on_connect.
  - destruct (task_of ws (tasks s)) as [chat_user|]; [simpl|done].
    destruct (on_text_inv chat_user loads (manager s))
      as [[e ->]|[->|[(sid & users & content & _ & ->)|(sid & users & _ & ->)]]];
      intros [= <-]; apply wf_shrink; try done;
      try apply sublist_submseteq, drop_task_sublist;
      try apply Hwf.
    + apply clients_del.
    + apply keys_del_NoDup, Hwf.
  - destruct (task_of ws (tasks s)) as [chat_user|]; [simpl|done].
    rewrite on_disconnect_eq by apply Hwf.
    destruct (find _ _) as [[sid users]|]; intros [= <-]; apply wf_shrink;
      try done; try apply sublist_submseteq, drop_task_sublist.
    + destruct (manager s) as [w d]. apply clients_leave_queue; simpl.
      apply sublist_submseteq, members_del_sublist.
    + apply keys_del_NoDup, Hwf.
    + destruct (manager s) as [w d]. by apply clients_leave_queue.
    + apply Hwf.
Qed.

Lemma reachable_wf s : reachable s -> wf s.
Proof.
  induction 1 as [|s e s' _ IH Hstep]; [apply wf_initial|].
  by eapply wf_step.
Qed.

(** ** The pairing queue *)

(** C1.  [add_user] on a non-empty waiting list removes its head and
    registers a session whose members are the arriving client and that head
    (every other registry entry is left as it was); on an empty waiting list
    it appends the arriving client, registers nothing and sends nothing. *)
Theorem add_user_matches_head_or_waits
    (user head : ChatUser) (rest : list ChatUser) (pairs : Dict.t (list ChatUser)) :
  let session_id := username user +:+ "-" +:+ username head in
  (∃ pm' out,
      add_user user {| waiting_users := head :: rest; active_pairs := pairs |}
      = (Ok tt, pm', out)
      ∧ waiting_users pm' = rest
      ∧ Dict.get session_id (active_pairs pm') = Some [user; head]
      ∧ ∀ k, k ≠ session_id -> Dict.get k (active_pairs pm') = Dict.get k pairs)
  ∧ add_user user {| waiting_users := []; active_pairs := pairs |}
    = (Ok tt, {| waiting_users := [user]; active_pairs := pairs |}, []).
Proof.
  intros session_id. split; [|apply add_user_wait].
  eexists _, _. split; [apply add_user_match|]. simpl.
  split; [done|]. split; [apply get_set_eq|].
  intros k Hk. by apply get_set_ne.
Qed.

Lemma add_user_matches_head_or_waits_witness :
  (∃ pm' out,
      add_user bob {| waiting_users := [alice]; active_pairs := [] |} = (Ok tt, pm', out)
      ∧ waiting_users pm' = []
      ∧ Dict.get "b-a" (active_pairs pm') = Some [bob; alice]
      ∧ ∀ k, k ≠ "b-a" -> Dict.get k (active_pairs pm') = None)
  ∧ add_user bob {| waiting_users := []; active_pairs := [] |}
    = (Ok tt, {| waiting_users := [bob]; active_pairs := [] |}, []).
Proof. exact (add_user_matches_head_or_waits bob alice [] []). Defined.

(** C2, as the code has it.  When a connecting client is matched with the head of the waiting
    list, the endpoint accepts the websocket and sends exactly two
    [session_start] messages: the one on the new websocket names the head's
    username as [partner], the one on the head's websocket names the new
    client's username; the two websockets differ, so each member is sent
    exactly the message naming the other.  The name a member is given is its
    own only when both members connected under the same username. *)
Theorem session_start_names_the_other_member
    (s : System) (name : string) (head : ChatUser) (rest : list ChatUser) :
  reachable s ->
  waiting_users (manager s) = head :: rest ->
  let ws := next_socket s in
  let session_id := name +:+ "-" +:+ username head in
  ∃ s' out,
    step s (Connect (Payload (Some name))) = Some s'
    ∧ trace s' = trace s ++ Accept ws :: out
    ∧ out = [SendJson ws (session_start_msg session_id (username head));
             SendJson (websocket head) (session_start_msg session_id name)]
    ∧ sent_to ws out = [session_start_msg session_id (username head)]
    ∧ sent_to (websocket head) out = [session_start_msg session_id name]
    ∧ Dict.get session_id (active_pairs (manager s'))
      = Some [{| username := name; websocket := ws |}; head]
    ∧ (name ≠ username head ->
       ∀ m, (m ∈ sent_to ws out -> field "partner" m ≠ Some (JStr name))
            ∧ (m ∈ sent_to (websocket head) out ->
               field "partner" m ≠ Some (JStr (username head)))).
Proof.
  intros Hreach Hwait ws session_id.
  assert (Hlt : websocket head < ws).
  { apply reachable_wf in Hreach as [_ Hb _ _ _].
    unfold clients in Hb. rewrite Hwait in Hb.
    apply Forall_app in Hb as [Hb _]. apply Forall_cons in Hb as [Hb _]. exact Hb. }
  eexists _, _. split; [reflexivity|].
  unfold on_connect. destruct (manager s) as [w pairs]. simpl in Hwait. subst w.
  rewrite add_user_match. cbn [trace manager active_pairs username websocket].
  fold ws session_id.
  assert (same_user head {| username := name; websocket := ws |} = false) as ->.
  { unfold same_user. apply bool_decide_false. simpl. lia. }
  split; [done|]. split; [done|].
  unfold sent_to. cbn [omap list_omap].
  rewrite decide_True by done. rewrite (decide_False (P := websocket head = ws)) by lia.
  rewrite (decide_False (P := ws = websocket head)) by lia.
  rewrite decide_True by done.
  split; [done|]. split; [done|]. split; [apply get_set_eq|].
  intros Hne m. rewrite !list_elem_of_singleton.
  split; intros ->; simpl; congruence.
Qed.

Lemma session_start_names_the_other_member_witness :
  let s := {| manager := {| waiting_users := [ {| username := "a"; websocket := 0 |} ];
                            active_pairs := [] |};
              tasks := [ {| username := "a"; websocket := 0 |} ];
              next_socket := 1;
              trace := [Accept 0] |} in
  reachable s
  ∧ waiting_users (manager s) = [ {| username := "a"; websocket := 0 |} ]
  ∧ ∃ s' out,
      step s (Connect (Payload (Some "b"))) = Some s'
      ∧ trace s' = trace s ++ Accept 1 :: out
      ∧ out = [SendJson 1 (session_start_msg "b-a" "a");
               SendJson 0 (session_start_msg "b-a" "b")]
      ∧ sent_to 1 out = [session_start_msg "b-a" "a"]
      ∧ sent_to 0 out = [session_start_msg "b-a" "b"]
      ∧ Dict.get "b-a" (active_pairs (manager s'))
        = Some [{| username := "b"; websocket := 1 |};
                {| username := "a"; websocket := 0 |}]
      ∧ ("b" ≠ "a" ->
         ∀ m, (m ∈ sent_to 1 out -> field "partner" m ≠ Some (JStr "b"))
              ∧ (m ∈ sent_to 0 out -> field "partner" m ≠ Some (JStr "a"))).
Proof.
  intros s.
  assert (Hs : reachable s).
  { apply (reachable_step initial (connect "a")); [constructor|reflexivity]. }
  split; [exact Hs|]. split; [reflexivity|].
  exact (session_start_names_the_other_member s "b"
           {| username := "a"; websocket := 0 |} [] Hs eq_refl).
Defined.

(** C2, the case the claim misses.  The same username connects twice (two
    tokens of one account): the two connections are matched with each other
    and both are sent ["partner": "a"], the name they connected under. *)
Lemma same_username_is_told_its_own_name :
  run initial [Connect (Payload (Some "a")); Connect (Payload (Some "a"))]
  = Some {| manager :=
              {| waiting_users := [];
                 active_pairs := [("a-a", [ {| username := "a"; websocket := 1 |};
                                            {| username := "a"; websocket := 0 |} ])] |};
            tasks := [ {| username := "a"; websocket := 0 |};
                       {| username := "a"; websocket := 1 |} ];
            next_socket := 2;
            trace := [Accept 0; Accept 1;
                      SendJson 1 (JObj [("type", JStr "session_start");
                                        ("session_id", JStr "a-a");
                                        ("partner", JStr "a")]);
                      SendJson 0 (JObj [("type", JStr "session_start");
                                        ("session_id", JStr "a-a");
                                        ("partner", JStr "a")])] |}.
Proof. reflexivity. Qed.

(** ** Ending a session *)

Lemma task_of_websocket ws ts u : task_of ws ts = Some u -> websocket u = ws.
Proof.
  unfold task_of. intros [_ H]%find_some. by apply bool_decide_eq_true in H.
Qed.

Lemma task_of_drop ws ts : task_of ws (drop_task ws ts) = None.
Proof.
  unfold task_of, drop_task. induction ts as [|u ts IH]; [done|].
  rewrite filter_cons. destruct (decide (websocket u ≠ ws)) as [Hne|Heq]; [|done].
  simpl. by rewrite bool_decide_false.
Qed.

Lemma reachable_run es : ∀ s s', reachable s -> run s es = Some s' -> reachable s'.
Proof.
  induction es as [|e es IH]; simpl; intros s s' Hs.
  - by intros [= <-].
  - destruct (step s e) as [s1|] eqn:Hstep; [simpl|done].
    apply IH. by eapply reachable_step.
Qed.








(** C9.  In every state the server can reach, no connection occurs twice in
    the waiting list followed by the member lists of all registered
    sessions. *)
Theorem client_is_referenced_at_most_once (s : System) :
  reachable s ->
  NoDup (websocket <$> clients (manager s)) ∧ NoDup (clients (manager s)).
Proof.
  intros [Hnd _ _ _ _]%reachable_wf. split; [done|]. by eapply NoDup_fmap_1.
Qed.

Lemma client_is_referenced_at_most_once_witness :
  NoDup (websocket <$> clients (manager paired)) ∧ NoDup (clients (manager paired)).
Proof.
  apply client_is_referenced_at_most_once.
  apply (reachable_run [connect "a"; connect "b"] initial); [constructor|reflexivity].
Defined.

Lemma step_receive_raise s ws chat_user loads e :
  task_of ws (tasks s) = Some chat_user ->
  on_text chat_user loads (manager s) = (Raise e, manager s, []) ->
  step s (Receive ws loads) = Some (crashed ws s).
Proof.
  intros Htask Hrun. simpl. rewrite Htask. simpl. rewrite Hrun.
  unfold crashed. by rewrite app_nil_r.
Qed.

Lemma step_receive_ignored s ws chat_user loads :
  task_of ws (tasks s) = Some chat_user ->
  on_text chat_user loads (manager s) = (Ok tt, manager s, []) ->
  step s (Receive ws loads) = Some s.
Proof.
  intros Htask Hrun. simpl. rewrite Htask. simpl. rewrite Hrun.
  destruct s. simpl. by rewrite app_nil_r.
Qed.

(** ** Session ids *)

Lemma keys_set_present {V} (d : Dict.t V) k v :
  is_Some (Dict.get k d) -> Dict.keys (Dict.set k v d) = Dict.keys d.
Proof.
  unfold Dict.keys. induction d as [|[k' v'] d IH]; simpl.
  - by intros [? [=]].
  - destruct (decide (k = k')) as [->|Hne]; simpl; [done|].
    intros H. f_equal. by apply IH.
Qed.

(** C8, as the code has it.  The id of a new session is the arriving
    client's username, a hyphen, and the waiting head's username: a function
    of the two identities and of their order.  [add_user] does not look the
    id up before using it: formation always goes through, the id is mapped
    to the new pair whatever it was mapped to before (an existing entry is
    replaced in place, no key is added), and the other entries are kept.
    Both [session_start] messages carry that id. *)
Theorem session_id_joins_usernames_and_replaces
    (user head : ChatUser) (rest : list ChatUser) (pairs : Dict.t (list ChatUser)) :
  let session_id := username user +:+ "-" +:+ username head in
  ∃ out,
    add_user user {| waiting_users := head :: rest; active_pairs := pairs |}
    = (Ok tt,
       {| waiting_users := rest;
          active_pairs := Dict.set session_id [user; head] pairs |},
       out)
    ∧ (∀ ws m, SendJson ws m ∈ out ->
         field "type" m = Some (JStr "session_start")
         ∧ field "session_id" m = Some (JStr session_id))
    ∧ Dict.get session_id (Dict.set session_id [user; head] pairs) = Some [user; head]
    ∧ (∀ k, k ≠ session_id ->
         Dict.get k (Dict.set session_id [user; head] pairs) = Dict.get k pairs)
    ∧ (is_Some (Dict.get session_id pairs) ->
       Dict.keys (Dict.set session_id [user; head] pairs) = Dict.keys pairs).
Proof.
  intros session_id. eexists. split; [apply add_user_match|].
  split.
  { intros ws m. rewrite !elem_of_cons, elem_of_nil.
    intros [[= _ ->]|[[= _ ->]|[]]]; done. }
  split; [apply get_set_eq|]. split; [intros k Hk; by apply get_set_ne|].
  apply keys_set_present.
Qed.

Lemma session_id_joins_usernames_and_replaces_witness :
  let old := [("b-a", [bob; alice])] in
  let bob' := {| username := "b"; websocket := 3 |} in
  let alice' := {| username := "a"; websocket := 2 |} in
  ∃ out,
    add_user bob' {| waiting_users := [alice']; active_pairs := old |}
    = (Ok tt,
       {| waiting_users := []; active_pairs := Dict.set "b-a" [bob'; alice'] old |},
       out)
    ∧ (∀ ws m, SendJson ws m ∈ out ->
         field "type" m = Some (JStr "session_start")
         ∧ field "session_id" m = Some (JStr "b-a"))
    ∧ Dict.get "b-a" (Dict.set "b-a" [bob'; alice'] old) = Some [bob'; alice']
    ∧ (∀ k, k ≠ "b-a" -> Dict.get k (Dict.set "b-a" [bob'; alice'] old) = Dict.get k old)
    ∧ (is_Some (Dict.get "b-a" old) ->
       Dict.keys (Dict.set "b-a" [bob'; alice'] old) = Dict.keys old).
Proof.
  intros old bob' alice'.
  exact (session_id_joins_usernames_and_replaces bob' alice' [] old).
Defined.

(** C8, where the claim fails.  Four different usernames: ["a-b"] is matched
    with ["c"] under the id ["a-b-c"]; then ["a"] is matched with ["b-c"],
    which gives ["a-b-c"] again while it is still mapped.  Formation goes
    through: the id now maps to the second pair, and the first pair is no
    longer in the registry although both its connections are running. *)
Lemma colliding_session_id_replaces_active_session :
  run initial [Connect (Payload (Some "c")); Connect (Payload (Some "a-b"));
               Connect (Payload (Some "b-c"))]
  = Some {| manager :=
              {| waiting_users := [ {| username := "b-c"; websocket := 2 |} ];
                 active_pairs := [("a-b-c", [ {| username := "a-b"; websocket := 1 |};
                                              {| username := "c"; websocket := 0 |} ])] |};
            tasks := [ {| username := "c"; websocket := 0 |};
                       {| username := "a-b"; websocket := 1 |};
                       {| username := "b-c"; websocket := 2 |} ];
            next_socket := 3;
            trace := [Accept 0; Accept 1;
                      SendJson 1 (session_start_msg "a-b-c" "c");
                      SendJson 0 (session_start_msg "a-b-c" "a-b");
                      Accept 2] |}
  ∧ run initial [Connect (Payload (Some "c")); Connect (Payload (Some "a-b"));
                 Connect (Payload (Some "b-c")); Connect (Payload (Some "a"))]
    = Some {| manager :=
                {| waiting_users := [];
                   active_pairs := [("a-b-c", [ {| username := "a"; websocket := 3 |};
                                                {| username := "b-c"; websocket := 2 |} ])] |};
              tasks := [ {| username := "c"; websocket := 0 |};
                         {| username := "a-b"; websocket := 1 |};
                         {| username := "b-c"; websocket := 2 |};
                         {| username := "a"; websocket := 3 |} ];
              next_socket := 4;
              trace := [Accept 0; Accept 1;
                        SendJson 1 (session_start_msg "a-b-c" "c");
                        SendJson 0 (session_start_msg "a-b-c" "a-b");
                        Accept 2; Accept 3;
                        SendJson 3 (session_start_msg "a-b-c" "b-c");
                        SendJson 2 (session_start_msg "a-b-c" "a")] |}.
Proof. split; reflexivity. Qed.

(** ** The sender named in a relayed message *)

Lemma runs_as_after_connect s name :
  wf s -> runs_as (next_socket s) name (on_connect s (Payload (Some name))).
Proof.
  intros Hwf. unfold runs_as, on_connect.
  destruct (add_user _ (manager s)) as [[r pm] out]. simpl. split; [lia|].
  intros u Hin Hws.
  assert (Hold : u ∈ tasks s -> username u = name).
  { intros Hu. destruct Hwf as [_ _ _ _ Hb]. rewrite Forall_forall in Hb.
    apply Hb in Hu. lia. }
  destruct r; [|auto].
  apply elem_of_app in Hin as [Hu|Hu%list_elem_of_singleton]; [auto|by subst].
Qed.

Lemma runs_as_step s e s' ws name :
  runs_as ws name s -> step s e = Some s' -> runs_as ws name s'.
Proof.
  intros [Hlt Hname]. unfold runs_as.
  assert (Hdrop : ∀ w u, u ∈ drop_task w (tasks s) -> u ∈ tasks s).
  { intros w u Hu. eapply elem_of_sublist; [exact Hu|apply drop_task_sublist]. }
  destruct e as [tok|w loads|w]; simpl.
  - intros [= <-]. unfold on_connect. destruct tok as [|[name'|]]; simpl; try (split; [lia|done]).
    destruct (add_user _ (manager s)) as [[r pm] out]. simpl. split; [lia|].
    intros u Hin Hws. destruct r; [|auto].
    apply elem_of_app in Hin as [Hu|Hu%list_elem_of_singleton]; [auto|].
    subst u. simpl in Hws. lia.
  - destruct (task_of w (tasks s)) as [chat_user|]; [simpl|done].
    destruct (on_text chat_user loads (manager s)) as [[r pm] out].
    intros [= <-]. simpl. split; [done|]. destruct r; eauto.
  - destruct (task_of w (tasks s)) as [chat_user|]; [simpl|done].
    destruct (on_disconnect chat_user (manager s)) as [[r pm] out].
    intros [= <-]. simpl. split; [done|]. eauto.
Qed.

Lemma runs_as_run es : ∀ s s' ws name,
  runs_as ws name s -> run s es = Some s' -> runs_as ws name s'.
Proof.
  induction es as [|e es IH]; simpl; intros s s' ws name Hs.
  - by intros [= <-].
  - destruct (step s e) as [s1|] eqn:Hstep; [simpl|done].
    apply IH. by eapply runs_as_step.
Qed.

Lemma relay_loop_fields chat_user items1 items2 session_id users pm :
  Dict.get "content" items1 = Dict.get "content" items2 ->
  relay_loop chat_user (JObj items1) session_id users pm
  = relay_loop chat_user (JObj items2) session_id users pm.
Proof.
  intros Hc. destruct (Dict.get "content" items2) as [content|] eqn:Hc2.
  - by rewrite !(relay_loop_content _ _ _ content).
  - by rewrite !relay_loop_no_content.
Qed.

Lemma on_text_fields chat_user items1 items2 pm :
  Dict.get "type" items1 = Dict.get "type" items2 ->
  Dict.get "session_id" items1 = Dict.get "session_id" items2 ->
  Dict.get "content" items1 = Dict.get "content" items2 ->
  on_text chat_user (Some (JObj items1)) pm = on_text chat_user (Some (JObj items2)) pm.
Proof.
  intros Hty Hsid Hc.
  destruct (Dict.get "type" items2) as [ty|] eqn:Hty2; cycle 1.
  { unfold on_text, subscript. run_M. by rewrite Hty, Hty2. }
  destruct (str_eq ty "chat_message") eqn:Hchat.
  - apply str_eq_true in Hchat as ->.
    destruct (Dict.get "session_id" items2) as [k|] eqn:Hsid2; cycle 1.
    { unfold on_text, subscript. run_M. rewrite Hty, Hty2. run_M. cbn [str_eq].
      rewrite bool_decide_true by done. by rewrite Hsid, Hsid2. }
    destruct k as [| | | |sid| |];
      try (unfold on_text, subscript; run_M; rewrite Hty, Hty2; run_M; cbn [str_eq];
           rewrite bool_decide_true by done; rewrite Hsid, Hsid2; run_M; done).
    rewrite !(on_text_chat_message _ _ sid) by done.
    destruct (Dict.get sid (active_pairs pm)); [|done].
    by apply relay_loop_fields.
  - destruct (str_eq ty "end_session") eqn:Hend; cycle 1.
    { by rewrite !(on_text_other_type _ _ ty). }
    apply str_eq_true in Hend as ->.
    destruct (Dict.get "session_id" items2) as [k|] eqn:Hsid2; cycle 1.
    { unfold on_text, subscript. run_M. rewrite Hty, Hty2. run_M. cbn [str_eq].
      rewrite bool_decide_false by done. run_M. cbn [str_eq].
      rewrite bool_decide_true by done. by rewrite Hsid, Hsid2. }
    by rewrite !(on_text_end_session _ _ k).
Qed.

Lemma on_text_user chat_user loads pm r pm' out ws m :
  on_text chat_user loads pm = (r, pm', out) ->
  SendJson ws m ∈ out ->
  field "type" m = Some (JStr "chat_message") ->
  field "user" m = Some (JStr (username chat_user)).
Proof.
  intros Hrun Hin Hty.
  destruct (on_text_inv chat_user loads pm)
    as [[e He]|[He|[(sid & users & content & _ & He)|(sid & users & _ & He)]]];
    rewrite He in Hrun; injection Hrun as <- <- <-.
  - by apply elem_of_nil in Hin.
  - by apply elem_of_nil in Hin.
  - apply list_elem_of_fmap in Hin as (u & [= _ ->] & _). done.
  - apply list_elem_of_fmap in Hin as (u & [= _ ->] & _). done.
Qed.

(** C10.  A connection admitted with a token whose subject is [name] gets
    the websocket [ws].  Whatever happens afterwards, every [chat_message]
    sent out while handling a text received on [ws] has [user] equal to
    [name].  The inbound object is consulted only through its ["type"],
    ["session_id"] and ["content"] entries: two objects that agree on these
    three lead to the same server state, whatever other entries (a ["user"]
    entry, say) they carry. *)
Theorem relayed_user_is_the_token_subject
    (s0 s1 s2 : System) (name : string) (es : list event) :
  reachable s0 ->
  step s0 (Connect (Payload (Some name))) = Some s1 ->
  run s1 es = Some s2 ->
  let ws := next_socket s0 in
  (∀ loads s3 w m,
      step s2 (Receive ws loads) = Some s3 ->
      SendJson w m ∈ drop (List.length (trace s2)) (trace s3) ->
      field "type" m = Some (JStr "chat_message") ->
      field "user" m = Some (JStr name))
  ∧ (∀ items1 items2,
      Dict.get "type" items1 = Dict.get "type" items2 ->
      Dict.get "session_id" items1 = Dict.get "session_id" items2 ->
      Dict.get "content" items1 = Dict.get "content" items2 ->
      step s2 (Receive ws (Some (JObj items1)))
      = step s2 (Receive ws (Some (JObj items2)))).
Proof.
  intros Hwf%reachable_wf [= <-] Hrun ws. split.
  - intros loads s3 w m. simpl.
    destruct (task_of ws (tasks s2)) as [chat_user|] eqn:Htask; [simpl|done].
    assert (Hname : username chat_user = name).
    { pose proof (runs_as_after_connect s0 name Hwf) as H0.
      destruct (runs_as_run es _ _ _ _ H0 Hrun) as [_ Hs2].
      apply Hs2; [|by eapply task_of_websocket].
      unfold task_of in Htask. apply find_some in Htask as [Hin _].
      by apply list_elem_of_In. }
    destruct (on_text chat_user loads (manager s2)) as [[r pm] out] eqn:Htext.
    intros [= <-]. simpl. rewrite drop_app_length. intros Hin Hty.
    rewrite <-Hname. by eapply on_text_user.
  - intros items1 items2 Hty Hsid Hc. simpl.
    destruct (task_of ws (tasks s2)) as [chat_user|]; [simpl|done].
    by rewrite (on_text_fields chat_user items1 items2).
Qed.

Lemma relayed_user_is_the_token_subject_witness :
  field "user" (chat_message_msg (JStr "b-a") "a" (JStr "hi")) = Some (JStr "a")
  ∧ step paired (Receive 0 (text [("type", JStr "chat_message");
                                  ("session_id", JStr "b-a");
                                  ("content", JStr "hi");
                                  ("user", JStr "mallory")]))
    = step paired (Receive 0 (text [("type", JStr "chat_message");
                                    ("session_id", JStr "b-a");
                                    ("content", JStr "hi")])).
Proof.
  destruct (relayed_user_is_the_token_subject
              initial (on_connect initial (Payload (Some "a"))) paired "a"
              [connect "b"] reachable_initial eq_refl eq_refl) as [Huser Hsame].
  split.
  - eapply (Huser (text [("type", JStr "chat_message"); ("session_id", JStr "b-a");
                         ("content", JStr "hi"); ("user", JStr "mallory")]) _ 1).
    + reflexivity.
    + vm_compute. left.
    + reflexivity.
  - apply Hsame; reflexivity.
Defined.

(** * Further properties of the code *)

(** ** What a step does to the manager *)

Lemma concat_sublist {A} (ls ks : list (list A)) :
  ls `sublist_of` ks -> concat ls `sublist_of` concat ks.
Proof.
  induction 1; simpl; [done| |].
  - by apply sublist_app.
  - by apply sublist_inserts_l.
Qed.

Lemma leave_queue_sublist chat_user waiting :
  leave_queue chat_user waiting `sublist_of` waiting.
Proof.
  unfold leave_queue. destruct (user_in chat_user waiting); [|done].
  apply list_remove_sublist.
Qed.

(** Handling a text or a disconnect only ever shrinks the manager. *)
Lemma step_shrinks s e s' :
  wf s -> step s e = Some s' -> (∀ tok, e ≠ Connect tok) ->
  waiting_users (manager s') `sublist_of` waiting_users (manager s)
  ∧ active_pairs (manager s') `sublist_of` active_pairs (manager s)
  ∧ tasks s' `sublist_of` tasks s
  ∧ next_socket s' = next_socket s.
Proof.
  intros Hwf Hstep Hne. destruct e as [tok|ws loads|ws]; [by destruct (Hne tok)| |];
    simpl in Hstep.
  - destruct (task_of ws (tasks s)) as [chat_user|]; [simpl in Hstep|done].
    destruct (on_text_inv chat_user loads (manager s))
      as [[e He]|[He|[(sid & users & content & _ & He)|(sid & users & _ & He)]]];
      rewrite He in Hstep; injection Hstep as <-; simpl;
      repeat split; try done; try apply drop_task_sublist; apply del_sublist.
  - destruct (task_of ws (tasks s)) as [chat_user|]; [simpl in Hstep|done].
    rewrite on_disconnect_eq in Hstep by apply Hwf.
    destruct (find _ _) as [[sid users]|]; injection Hstep as <-; simpl;
      repeat split; try done; try apply drop_task_sublist;
      try apply leave_queue_sublist; apply del_sublist.
Qed.

Lemma clients_sublist pm pm' :
  waiting_users pm' `sublist_of` waiting_users pm ->
  active_pairs pm' `sublist_of` active_pairs pm ->
  clients pm' `sublist_of` clients pm.
Proof.
  intros Hw Hp. unfold clients. apply sublist_app; [done|].
  apply concat_sublist. unfold Dict.values. by apply fmap_sublist.
Qed.

Lemma get_entry {V} (d : Dict.t V) k v : Dict.get k d = Some v -> (k, v) ∈ d.
Proof.
  induction d as [|[k' v'] d IH]; simpl; [done|].
  destruct (decide (k = k')) as [->|Hne].
  - intros [= ->]. left.
  - intros H. right. auto.
Qed.

Lemma Forall_set {V} (P : string * V -> Prop) (d : Dict.t V) k v :
  Forall P d -> P (k, v) -> Forall P (Dict.set k v d).
Proof.
  intros Hd Hkv. induction Hd as [|[k' v'] d Hx Hd IH]; simpl.
  - by repeat constructor.
  - destruct (decide (k = k')); by constructor.
Qed.

Lemma length_set {V} (d : Dict.t V) k v :
  List.length (Dict.set k v d)
  = match Dict.get k d with
    | Some _ => List.length d
    | None => S (List.length d)
    end.
Proof.
  induction d as [|[k' v'] d IH]; simpl; [done|].
  destruct (decide (k = k')); simpl; [done|].
  rewrite IH. by destruct (Dict.get k d).
Qed.

(** ** The waiting list and the shape of sessions *)

Lemma waiting_short s :
  reachable s -> (List.length (waiting_users (manager s)) ≤ 1)%nat.
Proof.
  intros Hreach. induction Hreach as [|s e s' Hreach IH Hstep]; [simpl; lia|].
  destruct e as [tok|ws loads|ws].
  - injection Hstep as <-. unfold on_connect.
    destruct tok as [|[name|]]; try done.
    destruct (manager s) as [[|head rest] pairs].
    + by rewrite add_user_wait.
    + rewrite add_user_match. simpl in *. lia.
  - apply (step_shrinks s _ s' (reachable_wf s Hreach)) in Hstep as (Hw & _); [|done].
    apply sublist_length in Hw. lia.
  - apply (step_shrinks s _ s' (reachable_wf s Hreach)) in Hstep as (Hw & _); [|done].
    apply sublist_length in Hw. lia.
Qed.

(** X1.  The waiting list never holds more than one client: a connecting
    client either takes the single waiting client away or becomes it.  The
    client that waits, if any, is a member of no registered session. *)
Theorem waiting_list_holds_at_most_one (s : System) :
  reachable s ->
  waiting_users (manager s) = []
  ∨ ∃ u, waiting_users (manager s) = [u]
         ∧ websocket u ∉ websocket <$> concat (Dict.values (active_pairs (manager s))).
Proof.
  intros Hreach. pose proof (waiting_short s Hreach) as Hlen.
  destruct (reachable_wf s Hreach) as [Hnd _ _ _ _]. unfold clients in Hnd.
  destruct (waiting_users (manager s)) as [|u [|v rest]]; simpl in Hlen; [by left| |lia].
  right. exists u. split; [done|].
  simpl in Hnd. by apply NoDup_cons in Hnd as [Hu _].
Qed.

Lemma waiting_list_holds_at_most_one_witness :
  waiting_users (manager paired) = []
  ∨ ∃ u, waiting_users (manager paired) = [u]
         ∧ websocket u ∉ websocket <$> concat (Dict.values (active_pairs (manager paired))).
Proof.
  apply waiting_list_holds_at_most_one.
  apply (reachable_run [connect "a"; connect "b"] initial); [constructor|reflexivity].
Defined.

Lemma sessions_ok s : reachable s -> Forall session_ok (active_pairs (manager s)).
Proof.
  intros Hreach. induction Hreach as [|s e s' Hreach IH Hstep]; [constructor|].
  pose proof (reachable_wf s Hreach) as Hwf.
  destruct e as [tok|ws loads|ws].
  - injection Hstep as <-. unfold on_connect.
    destruct tok as [|[name|]]; try done.
    destruct (manager s) as [[|head rest] pairs] eqn:Hpm.
    + by rewrite add_user_wait.
    + rewrite add_user_match. simpl in *. apply Forall_set; [done|].
      eexists _, _. split; [done|]. split; [done|]. simpl.
      destruct Hwf as [_ Hb _ _ _]. rewrite Hpm in Hb.
      unfold clients in Hb. simpl in Hb. by apply Forall_cons in Hb as [Hb _].
  - apply (step_shrinks s _ s' Hwf) in Hstep as (_ & Hp & _); [|done].
    eapply submseteq_Forall; [apply sublist_submseteq; exact Hp|done].
  - apply (step_shrinks s _ s' Hwf) in Hstep as (_ & Hp & _); [|done].
    eapply submseteq_Forall; [apply sublist_submseteq; exact Hp|done].
Qed.

(** X2.  Whatever is registered under a session id is a list of exactly two
    clients, [[user; partner]], on different websockets, [partner] being the
    one who connected first, and the id is [user]'s username, a hyphen, and
    [partner]'s username. *)
Theorem registered_session_is_a_pair
    (s : System) (session_id : string) (users : list ChatUser) :
  reachable s ->
  Dict.get session_id (active_pairs (manager s)) = Some users ->
  ∃ user partner,
    users = [user; partner]
    ∧ session_id = username user +:+ "-" +:+ username partner
    ∧ websocket partner < websocket user.
Proof.
  intros Hreach Hget%get_entry.
  pose proof (sessions_ok s Hreach) as Hok. rewrite Forall_forall in Hok.
  exact (Hok _ Hget).
Qed.

Lemma registered_session_is_a_pair_witness :
  ∃ user partner,
    [bob; alice] = [user; partner]
    ∧ "b-a" = username user +:+ "-" +:+ username partner
    ∧ websocket partner < websocket user.
Proof.
  apply (registered_session_is_a_pair paired "b-a" [bob; alice]); [|reflexivity].
  apply (reachable_run [connect "a"; connect "b"] initial); [constructor|reflexivity].
Defined.

(** ** Arrivals without departures *)

Lemma sends_app out1 out2 : sends (out1 ++ out2) = sends out1 ++ sends out2.
Proof. unfold sends. apply omap_app. Qed.

Lemma connect_arrival s name :
  (List.length (waiting_users (manager s)) ≤ 1)%nat ->
  let s' := on_connect s (Payload (Some name)) in
  List.length (tasks s') = S (List.length (tasks s))
  ∧ match waiting_users (manager s) with
    | [] =>
        List.length (waiting_users (manager s')) = 1
        ∧ List.length (sends (trace s')) = List.length (sends (trace s))
        ∧ List.length (active_pairs (manager s'))
          = List.length (active_pairs (manager s))
    | _ :: _ =>
        List.length (waiting_users (manager s')) = 0
        ∧ List.length (sends (trace s')) = 2 + List.length (sends (trace s))
        ∧ (List.length (active_pairs (manager s'))
           ≤ S (List.length (active_pairs (manager s))))%nat
    end.
Proof.
  intros Hw. unfold on_connect. destruct (manager s) as [[|head rest] pairs]; simpl in *.
  - rewrite length_app, sends_app. simpl. rewrite app_nil_r. split; [lia|done].
  - rewrite add_user_match. simpl. rewrite length_app, sends_app, length_app. simpl.
    split; [lia|]. split; [lia|]. split; [lia|].
    rewrite length_set. destruct (Dict.get _ pairs); lia.
Qed.

Lemma arrivals_from names : ∀ s,
  (List.length (waiting_users (manager s)) ≤ 1)%nat ->
  ∃ s',
    run s (connect <$> names) = Some s'
    ∧ List.length (tasks s') = List.length (tasks s) + List.length names
    ∧ ∃ formed,
        List.length (waiting_users (manager s)) + List.length names
        = 2 * formed + List.length (waiting_users (manager s'))
        ∧ (List.length (waiting_users (manager s')) ≤ 1)%nat
        ∧ List.length (sends (trace s')) = List.length (sends (trace s)) + 2 * formed
        ∧ (List.length (active_pairs (manager s'))
           ≤ List.length (active_pairs (manager s)) + formed)%nat.
Proof.
  induction names as [|name names IH]; intros s Hw.
  - exists s. split; [done|]. split; [simpl; lia|]. exists 0. simpl. lia.
  - pose proof (connect_arrival s name Hw) as Harr. cbv zeta in Harr.
    destruct Harr as [Ht Hcase].
    set (s1 := on_connect s (Payload (Some name))) in *.
    assert (Hw1 : (List.length (waiting_users (manager s1)) ≤ 1)%nat).
    { destruct (waiting_users (manager s)); cbn beta iota in Hcase; lia. }
    destruct (IH s1 Hw1) as (s' & Hrun & Htasks & formed & Hsum & Hw' & Hsends & Hpairs).
    exists s'. split; [exact Hrun|]. split; [simpl; lia|].
    destruct (waiting_users (manager s)) as [|head rest] eqn:Hwait;
      cbn beta iota in Hcase.
    + exists formed. simpl. lia.
    + exists (S formed). simpl in *. lia.
Qed.

(** X3.  When [N] clients with valid tokens connect one after the other
    and nothing else happens, all [N] endpoints are running, [N mod 2]
    clients are left waiting, [N / 2] pairs were formed with two
    [session_start] sends each and no other send, and the registry holds at
    most [N / 2] entries (fewer when two pairs produced the same id). *)
Theorem arrivals_pair_up (names : list string) :
  ∃ s,
    run initial (connect <$> names) = Some s
    ∧ List.length (tasks s) = List.length names
    ∧ List.length (waiting_users (manager s)) = List.length names mod 2
    ∧ List.length (sends (trace s)) = 2 * (List.length names / 2)
    ∧ (List.length (active_pairs (manager s)) ≤ List.length names / 2)%nat.
Proof.
  destruct (arrivals_from names initial) as
    (s & Hrun & Htasks & formed & Hsum & Hw & Hsends & Hpairs); [simpl; lia|].
  exists s. simpl in Htasks, Hsum, Hsends, Hpairs.
  assert (Hdiv : List.length names / 2 = formed).
  { symmetry. apply (Nat.div_unique _ 2 _ (List.length (waiting_users (manager s)))); lia. }
  assert (Hmod : List.length names mod 2 = List.length (waiting_users (manager s))).
  { symmetry. apply (Nat.mod_unique _ 2 formed); lia. }
  split; [done|]. split; [done|].
  rewrite Hdiv, Hmod. split; [done|]. split; [done|]. lia.
Qed.

(** ** Clients that have left *)

Lemma task_of_None ws ts : task_of ws ts = None ↔ ws ∉ websocket <$> ts.
Proof.
  unfold task_of. induction ts as [|u ts IH]; simpl.
  - split; [intros _ ?%elem_of_nil|]; done.
  - rewrite not_elem_of_cons. destruct (decide (websocket u = ws)) as [Heq|Hne].
    + rewrite bool_decide_true by done. split; [done|]. intros [? _]. congruence.
    + rewrite bool_decide_false by done. rewrite IH. split; [|tauto].
      intros H. split; [congruence|done].
Qed.

Lemma not_in_sublist {A B} (f : A -> B) (l k : list A) x :
  l `sublist_of` k -> x ∉ f <$> k -> x ∉ f <$> l.
Proof.
  intros Hsub Hnin Hin. apply Hnin.
  eapply elem_of_sublist; [exact Hin|]. by apply fmap_sublist.
Qed.

Lemma list_remove_not_in chat_user waiting :
  NoDup (websocket <$> waiting) ->
  websocket chat_user ∉ websocket <$> leave_queue chat_user waiting.
Proof.
  unfold leave_queue. destruct (user_in chat_user waiting) eqn:Hin; cycle 1.
  { intros _ H%user_in_spec. congruence. }
  clear Hin. induction waiting as [|v rest IH]; simpl; [by intros _ ?%elem_of_nil|].
  rewrite NoDup_cons. intros [Hv Hnd]. unfold same_user.
  destruct (decide (websocket chat_user = websocket v)) as [Heq|Hne].
  - rewrite bool_decide_true by done. by rewrite Heq.
  - rewrite bool_decide_false by done. rewrite fmap_cons, not_elem_of_cons. auto.
Qed.

Lemma find_none_members chat_user (d : Dict.t (list ChatUser)) :
  websocket chat_user ∉ websocket <$> concat (Dict.values d) ->
  find (λ entry, user_in chat_user entry.2) d = None.
Proof.
  unfold Dict.values. induction d as [|[k v] d IH]; simpl; [done|].
  rewrite fmap_app, not_elem_of_app. intros [Hv Hd].
  destruct (user_in chat_user v) eqn:Hin; [|auto].
  by apply user_in_spec in Hin.
Qed.

Lemma find_del_not_in chat_user (d : Dict.t (list ChatUser)) :
  NoDup (websocket <$> concat (Dict.values d)) ->
  websocket chat_user
  ∉ websocket <$> concat (Dict.values
      match find (λ entry, user_in chat_user entry.2) d with
      | Some (sid, _) => Dict.del sid d
      | None => d
      end).
Proof.
  unfold Dict.values. induction d as [|[k v] d IH]; simpl.
  - by intros _ ?%elem_of_nil.
  - rewrite fmap_app, NoDup_app. intros (_ & Hdisj & Hd).
    destruct (user_in chat_user v) eqn:Hin.
    + rewrite decide_True by done.
      apply (not_in_sublist websocket _ (concat d.*2)); [apply members_del_sublist|].
      apply Hdisj. by apply user_in_spec.
    + assert (Hv : websocket chat_user ∉ websocket <$> v).
      { intros H%user_in_spec. congruence. }
      specialize (IH Hd).
      destruct (find _ d) as [[sid users]|]; simpl.
      * destruct (decide (sid = k)); simpl; [done|].
        rewrite fmap_app, not_elem_of_app. done.
      * rewrite fmap_app, not_elem_of_app. done.
Qed.

Lemma get_del_not_in (d : Dict.t (list ChatUser)) sid users u :
  NoDup (websocket <$> concat (Dict.values d)) ->
  Dict.get sid d = Some users ->
  u ∈ users ->
  websocket u ∉ websocket <$> concat (Dict.values (Dict.del sid d)).
Proof.
  unfold Dict.values. intros Hnd Hget Hu.
  induction d as [|[k v] d IH]; simpl in *; [done|].
  rewrite fmap_app in Hnd. apply NoDup_app in Hnd as (_ & Hdisj & Hd).
  destruct (decide (sid = k)) as [->|Hne].
  - injection Hget as ->.
    apply (not_in_sublist websocket _ (concat d.*2)); [apply members_del_sublist|].
    apply Hdisj. by apply list_elem_of_fmap_2.
  - simpl. rewrite fmap_app, not_elem_of_app. split; [|auto].
    intros Hv. apply (Hdisj _ Hv).
    apply list_elem_of_fmap_2, elem_of_concat. exists users. split; [done|].
    by eapply get_elem_of.
Qed.

Lemma absent_step s e s' ws :
  wf s -> step s e = Some s' -> absent ws s -> absent ws s'.
Proof.
  intros Hwf Hstep [Hlt Hc]. unfold absent.
  destruct e as [tok|w loads|w]; cycle 1.
  - apply (step_shrinks s _ s' Hwf) in Hstep as (Hw & Hp & _ & ->); [|done].
    split; [done|]. eapply not_in_sublist; [|exact Hc]. by apply clients_sublist.
  - apply (step_shrinks s _ s' Hwf) in Hstep as (Hw & Hp & _ & ->); [|done].
    split; [done|]. eapply not_in_sublist; [|exact Hc]. by apply clients_sublist.
  - injection Hstep as <-. unfold on_connect.
    destruct tok as [|[name|]]; simpl; try (split; [lia|done]).
    destruct (add_user _ (manager s)) as [[r pm] out] eqn:Hadd. simpl.
    apply clients_add_user in Hadd as [Hsub _]. split; [lia|].
    intros Hin. apply (fmap_submseteq websocket) in Hsub.
    eapply elem_of_submseteq in Hin; [|exact Hsub].
    simpl in Hin. apply elem_of_cons in Hin as [->|Hin]; [lia|done].
Qed.

Lemma idle_step s e s' ws :
  wf s -> step s e = Some s' ->
  ws < next_socket s ∧ (ws ∉ websocket <$> tasks s) ->
  ws < next_socket s' ∧ (ws ∉ websocket <$> tasks s').
Proof.
  intros Hwf Hstep [Hlt Ht].
  destruct e as [tok|w loads|w]; cycle 1.
  - apply (step_shrinks s _ s' Hwf) in Hstep as (_ & _ & Hts & ->); [|done].
    split; [done|]. by eapply not_in_sublist.
  - apply (step_shrinks s _ s' Hwf) in Hstep as (_ & _ & Hts & ->); [|done].
    split; [done|]. by eapply not_in_sublist.
  - injection Hstep as <-. unfold on_connect.
    destruct tok as [|[name|]]; simpl; try (split; [lia|done]).
    destruct (add_user _ (manager s)) as [[r pm] out]. simpl. split; [lia|].
    destruct r; [|done]. rewrite fmap_app, not_elem_of_app. split; [done|].
    simpl. rewrite list_elem_of_singleton. lia.
Qed.

Lemma absent_run es : ∀ s s' ws,
  reachable s -> run s es = Some s' -> absent ws s -> absent ws s'.
Proof.
  induction es as [|e es IH]; simpl; intros s s' ws Hreach.
  - by intros [= <-].
  - destruct (step s e) as [s1|] eqn:Hstep; [simpl|done].
    intros Hrun Habs. apply (IH s1 s' ws); [by eapply reachable_step|done|].
    eapply absent_step; [by apply reachable_wf|exact Hstep|done].
Qed.

Lemma idle_run es : ∀ s s' ws,
  reachable s -> run s es = Some s' ->
  ws < next_socket s ∧ (ws ∉ websocket <$> tasks s) ->
  ws < next_socket s' ∧ (ws ∉ websocket <$> tasks s').
Proof.
  induction es as [|e es IH]; simpl; intros s s' ws Hreach.
  - by intros [= <-].
  - destruct (step s e) as [s1|] eqn:Hstep; [simpl|done].
    intros Hrun Hidle. apply (IH s1 s' ws); [by eapply reachable_step|done|].
    eapply idle_step; [by apply reachable_wf|exact Hstep|done].
Qed.

Lemma wf_members_NoDup s :
  wf s ->
  NoDup (websocket <$> waiting_users (manager s))
  ∧ NoDup (websocket <$> concat (Dict.values (active_pairs (manager s))))
  ∧ ∀ x, x ∈ websocket <$> waiting_users (manager s) ->
         x ∉ websocket <$> concat (Dict.values (active_pairs (manager s))).
Proof.
  intros [Hnd _ _ _ _]. unfold clients in Hnd. rewrite fmap_app in Hnd.
  apply NoDup_app in Hnd as (? & ? & ?). done.
Qed.

Lemma disconnect_absent s ws s1 :
  wf s -> step s (Disconnect ws) = Some s1 ->
  absent ws s1 ∧ (ws ∉ websocket <$> tasks s1).
Proof.
  intros Hwf Hstep. simpl in Hstep.
  destruct (task_of ws (tasks s)) as [chat_user|] eqn:Htask; [simpl in Hstep|done].
  pose proof (task_of_websocket _ _ _ Htask) as Hws.
  assert (Hlt : ws < next_socket s).
  { destruct Hwf as [_ _ _ _ Hb]. rewrite Forall_forall in Hb. rewrite <-Hws.
    apply Hb. unfold task_of in Htask. apply find_some in Htask as [Hin _].
    by apply list_elem_of_In. }
  destruct (wf_members_NoDup s Hwf) as (Hw & Hm & _).
  pose proof (list_remove_not_in chat_user _ Hw) as Hq.
  pose proof (find_del_not_in chat_user _ Hm) as Hd.
  rewrite on_disconnect_eq in Hstep by apply Hwf.
  split; [split|].
  - destruct (find _ _) as [[sid users]|]; by injection Hstep as <-.
  - rewrite <-Hws. unfold clients.
    destruct (find _ _) as [[sid users]|]; injection Hstep as <-; simpl;
      rewrite fmap_app, not_elem_of_app; done.
  - assert (Hdrop : ws ∉ websocket <$> drop_task ws (tasks s)).
    { apply task_of_None, task_of_drop. }
    destruct (find _ _) as [[sid users]|]; by injection Hstep as <-.
Qed.

(** X4.  Once the disconnect handler has run for a websocket, no later
    event brings that client back: it is in no waiting list and in no
    session of any state reached afterwards, and no endpoint runs on its
    websocket. *)
Theorem disconnected_client_never_returns
    (s s1 s2 : System) (ws : WebSocket) (es : list event) :
  reachable s ->
  step s (Disconnect ws) = Some s1 ->
  run s1 es = Some s2 ->
  (ws ∉ websocket <$> clients (manager s2)) ∧ task_of ws (tasks s2) = None.
Proof.
  intros Hreach Hstep Hrun.
  pose proof (disconnect_absent s ws s1 (reachable_wf s Hreach) Hstep) as [Habs Ht].
  assert (Hreach1 : reachable s1) by (by eapply reachable_step).
  destruct (absent_run es s1 s2 ws Hreach1 Hrun Habs) as [_ Hc].
  destruct (idle_run es s1 s2 ws Hreach1 Hrun) as [_ Ht2]; [by destruct Habs|].
  split; [done|]. by apply task_of_None.
Qed.

Lemma disconnected_client_never_returns_witness :
  let carol := {| username := "c"; websocket := 2 |} in
  let s2 := {| manager := {| waiting_users := [carol]; active_pairs := [] |};
               tasks := [bob; carol];
               next_socket := 3;
               trace := trace paired
                        ++ [SendJson 1 (session_end_msg (JStr "b-a"));
                            SendJson 0 (session_end_msg (JStr "b-a"));
                            Accept 2] |} in
  (0 ∉ websocket <$> clients (manager s2)) ∧ task_of 0 (tasks s2) = None.
Proof.
  intros carol s2.
  eapply (disconnected_client_never_returns paired _ s2 0 [connect "c"]).
  - apply (reachable_run [connect "a"; connect "b"] initial); [constructor|reflexivity].
  - reflexivity.
  - reflexivity.
Defined.

(** ** Members of a removed session, and clients that wait *)

Lemma task_of_bound s ws chat_user :
  wf s -> task_of ws (tasks s) = Some chat_user -> ws < next_socket s.
Proof.
  intros [_ _ _ _ Hb] Htask. rewrite Forall_forall in Hb.
  rewrite <-(task_of_websocket _ _ _ Htask). apply Hb.
  unfold task_of in Htask. apply find_some in Htask as [Hin _].
  by apply list_elem_of_In.
Qed.

Lemma member_bound s sid users u :
  wf s -> Dict.get sid (active_pairs (manager s)) = Some users -> u ∈ users ->
  websocket u < next_socket s.
Proof.
  intros [_ Hb _ _ _] Hget Hu. rewrite Forall_forall in Hb. apply Hb.
  unfold clients. apply elem_of_app. right. apply elem_of_concat.
  exists users. split; [done|]. by eapply get_elem_of.
Qed.

Lemma member_absent_after_del s sid users u tasks' trace' :
  wf s -> Dict.get sid (active_pairs (manager s)) = Some users -> u ∈ users ->
  absent (websocket u)
    {| manager := {| waiting_users := waiting_users (manager s);
                     active_pairs := Dict.del sid (active_pairs (manager s)) |};
       tasks := tasks'; next_socket := next_socket s; trace := trace' |}.
Proof.
  intros Hwf Hget Hu. destruct (wf_members_NoDup s Hwf) as (_ & Hm & Hdisj).
  unfold absent. simpl. split; [by apply (member_bound s sid users)|].
  unfold clients. simpl. rewrite fmap_app, not_elem_of_app. split.
  - intros Hw. apply (Hdisj _ Hw).
    apply list_elem_of_fmap_2, elem_of_concat. exists users.
    split; [done|]. by eapply get_elem_of.
  - by eapply get_del_not_in.
Qed.

Lemma disconnect_unreferenced s ws chat_user :
  wf s ->
  task_of ws (tasks s) = Some chat_user ->
  ws ∉ websocket <$> clients (manager s) ->
  step s (Disconnect ws)
  = Some {| manager := manager s; tasks := drop_task ws (tasks s);
            next_socket := next_socket s; trace := trace s |}.
Proof.
  intros Hwf Htask Hc. pose proof (task_of_websocket _ _ _ Htask) as Hws.
  unfold clients in Hc. rewrite fmap_app, not_elem_of_app in Hc. destruct Hc as [Hw Hm].
  simpl. rewrite Htask. simpl. rewrite on_disconnect_eq by apply Hwf.
  rewrite find_none_members by (by rewrite Hws). unfold leave_queue.
  assert (user_in chat_user (waiting_users (manager s)) = false) as ->.
  { apply not_true_is_false. intros H%user_in_spec. by rewrite Hws in H. }
  destruct (manager s). simpl. by rewrite app_nil_r.
Qed.

(** X7.  A client that is still waiting disconnects: it is taken out of the
    waiting list, which is then empty, the registry is untouched and nothing
    is sent to anybody. *)
Theorem waiting_client_leaves_silently (s : System) (u : ChatUser) :
  reachable s ->
  u ∈ waiting_users (manager s) ->
  is_Some (task_of (websocket u) (tasks s)) ->
  step s (Disconnect (websocket u))
  = Some {| manager := {| waiting_users := [];
                          active_pairs := active_pairs (manager s) |};
            tasks := drop_task (websocket u) (tasks s);
            next_socket := next_socket s;
            trace := trace s |}.
Proof.
  intros Hreach Hu [t Ht].
  pose proof (reachable_wf s Hreach) as Hwf.
  pose proof (waiting_short s Hreach) as Hlen.
  pose proof (task_of_websocket _ _ _ Ht) as Hws.
  destruct (wf_members_NoDup s Hwf) as (_ & _ & Hdisj).
  destruct (waiting_users (manager s)) as [|v [|? ?]] eqn:Hwait; simpl in Hlen;
    [by apply elem_of_nil in Hu| |lia].
  apply list_elem_of_singleton in Hu as <-.
  simpl. rewrite Ht. simpl. rewrite on_disconnect_eq by apply Hwf.
  rewrite find_none_members; cycle 1.
  { rewrite Hws. apply Hdisj. simpl. left. }
  rewrite Hwait. unfold leave_queue, user_in. simpl. unfold same_user.
  rewrite !(bool_decide_true _ Hws). simpl. by rewrite app_nil_r.
Qed.

Lemma waiting_client_leaves_silently_witness :
  step {| manager := {| waiting_users := [alice]; active_pairs := [] |};
          tasks := [alice]; next_socket := 1; trace := [Accept 0] |}
       (Disconnect 0)
  = Some {| manager := {| waiting_users := []; active_pairs := [] |};
            tasks := []; next_socket := 1; trace := [Accept 0] |}.
Proof.
  apply (waiting_client_leaves_silently
           {| manager := {| waiting_users := [alice]; active_pairs := [] |};
              tasks := [alice]; next_socket := 1; trace := [Accept 0] |} alice).
  - apply (reachable_run [connect "a"] initial); [constructor|reflexivity].
  - left.
  - by eexists.
Defined.

(** ** What the server does on which websocket *)

(** An effect list made of sends to clients the manager refers to. *)
Lemma sends_to_members (users all : list ChatUser) (msg : json) :
  users ⊆ all ->
  Forall (λ e, ∃ u m, e = SendJson (websocket u) m ∧ u ∈ all)
         ((λ u, SendJson (websocket u) msg) <$> users).
Proof.
  intros Hsub. apply Forall_fmap, Forall_forall. intros u Hu. simpl. eauto.
Qed.

Lemma session_members_clients pm sid users :
  (sid, users) ∈ active_pairs pm -> users ⊆ clients pm.
Proof.
  intros Hin u Hu. unfold clients. apply elem_of_app. right.
  apply elem_of_concat. exists users. split; [done|].
  unfold Dict.values. by apply (list_elem_of_fmap_2 snd) in Hin.
Qed.

Lemma trace_ok_extend s pm' ts' out :
  trace_ok s ->
  clients pm' ⊆ clients (manager s) ->
  Forall (λ e, ∃ u m, e = SendJson (websocket u) m ∧ u ∈ clients (manager s)) out ->
  trace_ok {| manager := pm'; tasks := ts'; next_socket := next_socket s;
              trace := trace s ++ out |}.
Proof.
  intros [Hs Hc Hsend Hclosed] Hsub Hout.
  rewrite Forall_forall in Hc. rewrite Forall_forall in Hout.
  assert (Hacc : ∀ ws, Accept ws ∈ trace s ++ out ↔ Accept ws ∈ trace s).
  { intros ws. rewrite elem_of_app. split; [|auto].
    intros [H|H]; [done|]. by destruct (Hout _ H) as (? & ? & [=] & _). }
  split; simpl.
  - apply Forall_app. split; [done|]. apply Forall_forall. intros e He.
    destruct (Hout _ He) as (u & m & -> & Hu). simpl.
    rewrite Forall_forall in Hs. apply (Hs (Accept (websocket u))). auto.
  - apply Forall_forall. intros u Hu. apply Hacc. auto.
  - intros ws m. rewrite Hacc, elem_of_app. intros [H|H]; [eauto|].
    destruct (Hout _ H) as (u & m' & [= -> ->] & Hu). auto.
  - intros ws code. rewrite Hacc, elem_of_app. intros [H|H]; [eauto|].
    by destruct (Hout _ H) as (? & ? & [=] & _).
Qed.

Lemma trace_ok_on_connect s tok : wf s -> trace_ok s -> trace_ok (on_connect s tok).
Proof.
  intros Hwf [Hs Hc Hsend Hclosed].
  rewrite Forall_forall in Hs. rewrite Forall_forall in Hc.
  assert (Hnew : ∀ e, e ∈ trace s -> socket_of e ≠ next_socket s).
  { intros e He. apply Hs in He. lia. }
  assert (Hgrow : Forall (λ e, socket_of e < S (next_socket s)) (trace s)).
  { apply Forall_forall. intros e He. apply Hs in He. lia. }
  unfold on_connect. destruct tok as [|[name|]].
  1,3: split; simpl;
    [apply Forall_app; split; [done|]; repeat constructor; simpl; lia
    |apply Forall_forall; intros u Hu; apply elem_of_app; auto
    |intros ws m [H|[=]%list_elem_of_singleton]%elem_of_app; apply elem_of_app; eauto
    |intros ws code Hclose [Hacc|[=]%list_elem_of_singleton]%elem_of_app;
     apply elem_of_app in Hclose as [Hclose|[= -> _]%list_elem_of_singleton];
     [by eapply Hclosed|by apply (Hnew _ Hacc)] ].
  set (chat_user := {| username := name; websocket := next_socket s |}).
  assert (Hout : ∃ r pm out,
            add_user chat_user (manager s) = (r, pm, out)
            ∧ clients pm ⊆ chat_user :: clients (manager s)
            ∧ Forall (λ e, ∃ u m, e = SendJson (websocket u) m
                                  ∧ u ∈ chat_user :: clients (manager s)) out).
  { destruct (add_user chat_user (manager s)) as [[r pm] out] eqn:Hadd.
    exists r, pm, out. split; [done|].
    pose proof (clients_add_user _ _ _ _ _ Hadd) as [Hsub _].
    split; [intros u Hu; by eapply elem_of_submseteq|].
    destruct (manager s) as [[|head rest] pairs].
    - rewrite add_user_wait in Hadd. injection Hadd as <- <- <-. constructor.
    - rewrite add_user_match in Hadd. injection Hadd as <- <- <-.
      repeat constructor.
      + exists chat_user. eexists. split; [done|]. left.
      + exists head. eexists. split; [done|]. right. unfold clients. simpl. left. }
  destruct Hout as (r & pm & out & -> & Hsub & Hout). rewrite Forall_forall in Hout.
  assert (Hacc : ∀ ws, Accept ws ∈ trace s ++ Accept (next_socket s) :: out
                       ↔ Accept ws ∈ trace s ∨ ws = next_socket s).
  { intros ws. rewrite elem_of_app, elem_of_cons. split.
    - intros [H|[[= ->]|H]]; [auto|auto|].
      by destruct (Hout _ H) as (? & ? & [=] & _).
    - intros [H| ->]; auto. }
  assert (Hknown : ∀ u, u ∈ chat_user :: clients (manager s) ->
                        Accept (websocket u) ∈ trace s ∨ websocket u = next_socket s).
  { intros u [->|Hu]%elem_of_cons; [by right|left; auto]. }
  split; simpl.
  - apply Forall_app. split; [done|]. constructor; [simpl; lia|].
    apply Forall_forall. intros e He.
    destruct (Hout _ He) as (u & m & -> & Hu). simpl.
    destruct (Hknown u Hu) as [H|H]; [|lia]. apply Hs in H. simpl in H. lia.
  - apply Forall_forall. intros u Hu. apply Hacc, Hknown. auto.
  - intros ws m. rewrite Hacc, elem_of_app, elem_of_cons.
    intros [H|[[=]|H]]; [eauto|].
    destruct (Hout _ H) as (u & m' & [= -> ->] & Hu). auto.
  - intros ws code. rewrite Hacc, elem_of_app, elem_of_cons.
    intros [H|[[=]|H]].
    + intros [Ha| ->]; [by eapply Hclosed|]. by apply (Hnew _ H).
    + by destruct (Hout _ H) as (? & ? & [=] & _).
Qed.

Lemma reachable_trace_ok s : reachable s -> trace_ok s.
Proof.
  induction 1 as [|s e s' Hreach IH Hstep].
  { split; simpl; try constructor; by intros ? ? ?%elem_of_nil. }
  pose proof (reachable_wf s Hreach) as Hwf.
  pose proof (step_shrinks s e s' Hwf Hstep) as Hshrink.
  destruct e as [tok|ws loads|ws]; simpl in Hstep.
  - injection Hstep as <-. by apply trace_ok_on_connect.
  - destruct Hshrink as (Hw & Hp & _ & _); [done|].
    destruct (task_of ws (tasks s)) as [chat_user|]; [simpl in Hstep|done].
    pose proof (clients_sublist _ _ Hw Hp) as Hsub.
    destruct (on_text_inv chat_user loads (manager s))
      as [[e He]|[He|[(sid & users & content & Hget & He)|(sid & users & Hget & He)]]];
      rewrite He in Hstep; injection Hstep as <-;
      (apply trace_ok_extend;
       [done|intros u Hu; by eapply elem_of_sublist| ]);
      try constructor;
      apply sends_to_members; by eapply session_members_clients, get_entry.
  - destruct Hshrink as (Hw & Hp & _ & _); [done|].
    destruct (task_of ws (tasks s)) as [chat_user|]; [simpl in Hstep|done].
    pose proof (clients_sublist _ _ Hw Hp) as Hsub.
    rewrite on_disconnect_eq in Hstep by apply Hwf.
    destruct (find _ _) as [[sid users]|] eqn:Hfind; injection Hstep as <-;
      (apply trace_ok_extend;
       [done|intros u Hu; by eapply elem_of_sublist| ]);
      try constructor.
    apply sends_to_members. apply (session_members_clients _ sid).
    apply find_some in Hfind as [Hin _]. by apply list_elem_of_In.
Qed.

(** X8.  The server only sends on websockets it has accepted, and it never
    accepts nor sends on a websocket it closed for a bad token: in the trace
    of any reachable state, the websocket of every [send_json] has an
    [accept] and no [close]. *)
Theorem sends_go_to_accepted_websockets (s : System) (ws : WebSocket) (m : json) :
  reachable s ->
  SendJson ws m ∈ trace s ->
  Accept ws ∈ trace s ∧ ∀ code, Close ws code ∉ trace s.
Proof.
  intros [_ _ Hsend Hclosed]%reachable_trace_ok Hin.
  split; [by eapply Hsend|]. intros code Hclose.
  apply (Hclosed _ _ Hclose). by eapply Hsend.
Qed.

Lemma sends_go_to_accepted_websockets_witness :
  Accept 0 ∈ trace paired ∧ ∀ code, Close 0 code ∉ trace paired.
Proof.
  apply (sends_go_to_accepted_websockets paired 0 (session_start_msg "b-a" "b")).
  - apply (reachable_run [connect "a"; connect "b"] initial); [constructor|reflexivity].
  - vm_compute. do 3 right. left.
Defined.

(** ** More on inbound texts *)

Lemma on_text_session_key chat_user items ty k pm :
  Dict.get "type" items = Some (JStr ty) ->
  ty = "chat_message" ∨ ty = "end_session" ->
  Dict.get "session_id" items = Some k ->
  (∀ sid, k ≠ JStr sid) ->
  on_text chat_user (Some (JObj items)) pm
  = (match k with
     | JArr _ | JObj _ => Raise TypeError
     | _ => Ok tt
     end, pm, []).
Proof.
  intros Hty Hor Hsid Hk. destruct Hor as [-> | ->].
  - unfold on_text, subscript. run_M. rewrite Hty. run_M. cbn [str_eq].
    rewrite bool_decide_true by done. rewrite Hsid. run_M.
    destruct k; try done. by destruct (Hk s).
  - rewrite (on_text_end_session _ _ k) by done.
    unfold end_session. run_M. destruct k; try done. by destruct (Hk s).
Qed.

(** X9.  What a [session_id] that is not a string does.  In a
    [chat_message] or an [end_session], a [session_id] that is a JSON array
    or object cannot be looked up in the registry: the lookup raises
    [TypeError], which ends the endpoint.  A number, a boolean or [null] is
    looked up and not found, so the message is ignored.  In both cases the
    manager is unchanged and nothing is sent. *)
Theorem non_string_session_id
    (s : System) (ws : WebSocket) (chat_user : ChatUser)
    (items : list (string * json)) (ty : string) (k : json) :
  task_of ws (tasks s) = Some chat_user ->
  Dict.get "type" items = Some (JStr ty) ->
  ty = "chat_message" ∨ ty = "end_session" ->
  Dict.get "session_id" items = Some k ->
  (∀ sid, k ≠ JStr sid) ->
  step s (Receive ws (Some (JObj items)))
  = Some match k with
         | JArr _ | JObj _ => crashed ws s
         | _ => s
         end.
Proof.
  intros Htask Hty Hor Hsid Hk.
  pose proof (on_text_session_key chat_user items ty k (manager s) Hty Hor Hsid Hk) as Hrun.
  destruct k; try (by eapply step_receive_ignored); by eapply step_receive_raise.
Qed.

Lemma non_string_session_id_witness :
  step paired (Receive 0 (text [("type", JStr "end_session");
                                ("session_id", JArr [JStr "b-a"])]))
  = Some (crashed 0 paired).
Proof.
  apply (non_string_session_id paired 0 alice
           [("type", JStr "end_session"); ("session_id", JArr [JStr "b-a"])]
           "end_session" (JArr [JStr "b-a"])); try reflexivity; [by right|done].
Defined.

(** X10.  The ["content"] of a [chat_message] is read only after a
    registered session was found.  A [chat_message] without ["content"] that
    names a registered session raises [KeyError] before anything is sent:
    no member receives it and the sender's endpoint ends.  The same message
    naming an unknown session is ignored like any other. *)
Theorem chat_message_without_content
    (s : System) (ws : WebSocket) (chat_user : ChatUser)
    (items : list (string * json)) (session_id : string) :
  reachable s ->
  task_of ws (tasks s) = Some chat_user ->
  Dict.get "type" items = Some (JStr "chat_message") ->
  Dict.get "session_id" items = Some (JStr session_id) ->
  Dict.get "content" items = None ->
  step s (Receive ws (Some (JObj items)))
  = Some match Dict.get session_id (active_pairs (manager s)) with
         | Some _ => crashed ws s
         | None => s
         end.
Proof.
  intros Hreach Htask Hty Hsid Hc.
  destruct (Dict.get session_id (active_pairs (manager s))) as [users|] eqn:Hget.
  - eapply (step_receive_raise _ _ _ _ (KeyError (JStr "content"))); [done|].
    rewrite (on_text_chat_message _ _ session_id) by done. rewrite Hget.
    rewrite relay_loop_no_content by done.
    pose proof (sessions_ok s Hreach) as Hok. rewrite Forall_forall in Hok.
    destruct (Hok _ (get_entry _ _ _ Hget)) as (u & p & Hu & _). simpl in Hu.
    by rewrite Hu.
  - eapply step_receive_ignored; [done|].
    rewrite (on_text_chat_message _ _ session_id) by done. by rewrite Hget.
Qed.

Lemma chat_message_without_content_witness :
  step paired (Receive 0 (text [("type", JStr "chat_message");
                                ("session_id", JStr "b-a")]))
  = Some (crashed 0 paired).
Proof.
  apply (chat_message_without_content paired 0 alice
           [("type", JStr "chat_message"); ("session_id", JStr "b-a")] "b-a");
    try reflexivity.
  apply (reachable_run [connect "a"; connect "b"] initial); [constructor|reflexivity].
Defined.

Lemma on_text_change chat_user loads pm r pm' out :
  on_text chat_user loads pm = (r, pm', out) ->
  pm' = pm
  ∨ ∃ items sid users,
      loads = Some (JObj items)
      ∧ Dict.get "type" items = Some (JStr "end_session")
      ∧ Dict.get "session_id" items = Some (JStr sid)
      ∧ Dict.get sid (active_pairs pm) = Some users
      ∧ pm' = {| waiting_users := waiting_users pm;
                 active_pairs := Dict.del sid (active_pairs pm) |}
      ∧ out = (λ u, SendJson (websocket u) (session_end_msg (JStr sid))) <$> users.
Proof.
  intros Hrun.
  destruct loads as [message|]; [|injection Hrun as <- <- <-; by left].
  destruct message as [| | | | | |items]; try (injection Hrun as <- <- <-; by left).
  destruct (Dict.get "type" items) as [ty|] eqn:Hty; cycle 1.
  { unfold on_text, subscript in Hrun. run_M. revert Hrun. run_M. rewrite Hty.
    intros [= <- <- <-]. by left. }
  destruct (str_eq ty "chat_message") eqn:Hchat.
  { apply str_eq_true in Hchat as ->. left.
    destruct (Dict.get "session_id" items) as [k|] eqn:Hsid; cycle 1.
    { revert Hrun. unfold on_text, subscript. run_M. rewrite Hty. run_M. cbn [str_eq].
      rewrite bool_decide_true by done. rewrite Hsid. by intros [= <- <- <-]. }
    destruct k as [| | | |sid| |];
      try (revert Hrun; unfold on_text, subscript; run_M; rewrite Hty; run_M;
           cbn [str_eq]; rewrite bool_decide_true by done; rewrite Hsid; run_M;
           by intros [= <- <- <-]).
    rewrite (on_text_chat_message _ _ sid) in Hrun by done.
    destruct (Dict.get sid (active_pairs pm)) as [users|];
      [|by injection Hrun as <- <- <-].
    destruct (Dict.get "content" items) as [content|] eqn:Hc.
    - rewrite (relay_loop_content _ _ _ content) in Hrun by done.
      by injection Hrun as <- <- <-.
    - rewrite relay_loop_no_content in Hrun by done. by injection Hrun as <- <- <-. }
  destruct (str_eq ty "end_session") eqn:Hend; cycle 1.
  { rewrite (on_text_other_type _ _ ty) in Hrun by done.
    injection Hrun as <- <- <-. by left. }
  apply str_eq_true in Hend as ->.
  destruct (Dict.get "session_id" items) as [k|] eqn:Hsid; cycle 1.
  { revert Hrun. unfold on_text, subscript. run_M. rewrite Hty. run_M. cbn [str_eq].
    rewrite bool_decide_false by done. run_M. cbn [str_eq].
    rewrite bool_decide_true by done. rewrite Hsid. intros [= <- <- <-]. by left. }
  rewrite (on_text_end_session _ _ k) in Hrun by done.
  destruct k as [| | | |sid| |]; try (injection Hrun as <- <- <-; by left).
  destruct (Dict.get sid (active_pairs pm)) as [users|] eqn:Hget.
  - rewrite (end_session_registered _ _ users) in Hrun by done.
    injection Hrun as <- <- <-. right. by exists items, sid, users.
  - rewrite end_session_absent in Hrun by done. injection Hrun as <- <- <-. by left.
Qed.

(** ** [ConnectionManager] *)

Lemma cm_remove_absent ws l :
  ws ∉ l -> ConnectionManager.list_remove ws l = None.
Proof.
  induction l as [|c l IH]; simpl; [done|].
  rewrite not_elem_of_cons. intros [Hne Hnin].
  rewrite decide_False by done. by rewrite IH.
Qed.

Lemma cm_remove_present ws l :
  ws ∈ l ->
  ∃ before after,
    l = before ++ ws :: after ∧ (ws ∉ before)
    ∧ ConnectionManager.list_remove ws l = Some (before ++ after).
Proof.
  induction l as [|c l IH]; simpl; [by intros ?%elem_of_nil|].
  destruct (decide (ws = c)) as [<-|Hne].
  - intros _. exists [], l. split; [done|]. split; [apply not_elem_of_nil|done].
  - intros [?|Hin]%elem_of_cons; [done|].
    destruct (IH Hin) as (before & after & -> & Hb & ->).
    exists (c :: before), after. split; [done|].
    split; [|done]. rewrite not_elem_of_cons. done.
Qed.

(** X12.  [ConnectionManager.disconnect] raises [ValueError] exactly when
    the websocket is not in [active_connections] (it was never connected, or
    was disconnected already); otherwise it removes the first, and only the
    first, registration of that websocket and keeps the others in order. *)
Theorem disconnect_removes_first_or_raises
    (self : ConnectionManager.t) (ws : WebSocket) :
  (ws ∉ ConnectionManager.active_connections self ->
   ConnectionManager.disconnect self ws = inl ConnectionManager.ValueError)
  ∧ (ws ∈ ConnectionManager.active_connections self ->
     ∃ before after,
       ConnectionManager.active_connections self = before ++ ws :: after
       ∧ (ws ∉ before)
       ∧ ConnectionManager.disconnect self ws
         = inr {| ConnectionManager.active_connections := before ++ after |}).
Proof.
  unfold ConnectionManager.disconnect. split.
  - intros Hnin. by rewrite cm_remove_absent.
  - intros Hin. destruct (cm_remove_present ws _ Hin) as (before & after & Hl & Hb & Hr).
    exists before, after. by rewrite Hr.
Qed.

Lemma disconnect_removes_first_or_raises_witness :
  ConnectionManager.disconnect {| ConnectionManager.active_connections := [1; 2] |} 0
  = inl ConnectionManager.ValueError
  ∧ ∃ before after,
      [1; 0; 2; 0] = before ++ 0 :: after
      ∧ (0 ∉ before)
      ∧ ConnectionManager.disconnect
          {| ConnectionManager.active_connections := [1; 0; 2; 0] |} 0
        = inr {| ConnectionManager.active_connections := before ++ after |}.
Proof.
  split.
  - apply (disconnect_removes_first_or_raises
             {| ConnectionManager.active_connections := [1; 2] |} 0).
    simpl. rewrite !not_elem_of_cons. repeat split; try lia. apply not_elem_of_nil.
  - apply (disconnect_removes_first_or_raises
             {| ConnectionManager.active_connections := [1; 0; 2; 0] |} 0).
    simpl. right. left.
Defined.





(** ** Refused connections and dead clients *)

Lemma step_trace s e s' : step s e = Some s' -> ∃ out, trace s' = trace s ++ out.
Proof.
  destruct e as [tok|ws loads|ws]; simpl.
  - intros [= <-]. unfold on_connect. destruct tok as [|[name|]]; simpl; eauto.
    destruct (add_user _ (manager s)) as [[r pm] out]. simpl. eauto.
  - destruct (task_of ws (tasks s)) as [chat_user|]; [simpl|done].
    destruct (on_text chat_user loads (manager s)) as [[r pm] out].
    intros [= <-]. simpl. eauto.
  - destruct (task_of ws (tasks s)) as [chat_user|]; [simpl|done].
    destruct (on_disconnect chat_user (manager s)) as [[r pm] out].
    intros [= <-]. simpl. eauto.
Qed.

Lemma run_trace es : ∀ s s', run s es = Some s' -> ∃ out, trace s' = trace s ++ out.
Proof.
  induction es as [|e es IH]; simpl; intros s s'.
  - intros [= <-]. exists []. by rewrite app_nil_r.
  - destruct (step s e) as [s1|] eqn:Hstep; [simpl|done]. intros Hrun.
    destruct (step_trace _ _ _ Hstep) as [out1 H1].
    destruct (IH _ _ Hrun) as [out2 H2].
    exists (out1 ++ out2). by rewrite H2, H1, (assoc_L (++)).
Qed.

Lemma fresh_socket_unused s :
  wf s ->
  (next_socket s ∉ websocket <$> clients (manager s))
  ∧ (next_socket s ∉ websocket <$> tasks s).
Proof.
  intros [_ Hc _ _ Ht]. rewrite Forall_forall in Hc. rewrite Forall_forall in Ht.
  split; intros (u & Hu & Hin)%list_elem_of_fmap.
  - apply Hc in Hin. lia.
  - apply Ht in Hin. lia.
Qed.

(** X15.  A connection whose token does not decode, or decodes without a
    subject, is closed with code 1008 without being accepted, and the
    manager and the running endpoints are as before.  Nothing that happens
    later changes that: its websocket is never in the waiting list or in a
    session, no endpoint runs on it, it is never accepted and nothing is ever
    sent on it. *)
Theorem refused_connection_is_never_served
    (s s1 s2 : System) (tok : token) (es : list event) :
  reachable s ->
  tok = JWTError ∨ tok = Payload None ->
  step s (Connect tok) = Some s1 ->
  run s1 es = Some s2 ->
  let ws := next_socket s in
  manager s1 = manager s
  ∧ tasks s1 = tasks s
  ∧ trace s1 = trace s ++ [Close ws 1008]
  ∧ (ws ∉ websocket <$> clients (manager s2))
  ∧ task_of ws (tasks s2) = None
  ∧ (Accept ws ∉ trace s2)
  ∧ ∀ m, SendJson ws m ∉ trace s2.
Proof.
  intros Hreach Htok Hstep Hrun ws.
  assert (Hs1 : s1 = {| manager := manager s; tasks := tasks s;
                        next_socket := S ws; trace := trace s ++ [Close ws 1008] |}).
  { injection Hstep as <-. by destruct Htok as [-> | ->]. }
  assert (Hreach1 : reachable s1) by (by eapply reachable_step).
  destruct (fresh_socket_unused s (reachable_wf s Hreach)) as [Hc Ht].
  assert (Habs : absent ws s1) by (rewrite Hs1; split; simpl; [lia|done]).
  assert (Hidle : ws < next_socket s1 ∧ (ws ∉ websocket <$> tasks s1))
    by (rewrite Hs1; split; simpl; [lia|done]).
  destruct (absent_run es s1 s2 ws Hreach1 Hrun Habs) as [_ Hc2].
  destruct (idle_run es s1 s2 ws Hreach1 Hrun Hidle) as [_ Ht2].
  assert (Hclose : Close ws 1008 ∈ trace s2).
  { destruct (run_trace _ _ _ Hrun) as [out ->]. rewrite Hs1. simpl.
    rewrite !elem_of_app, list_elem_of_singleton. auto. }
  assert (Hreach2 : reachable s2) by (by eapply reachable_run).
  destruct (reachable_trace_ok s2 Hreach2) as [_ _ Hsend Hclosed].
  rewrite Hs1 at 1 2 3. simpl. repeat (split; [done|]).
  split; [by apply task_of_None|]. split; [by eapply Hclosed|].
  intros m Hm. eapply Hclosed; [exact Hclose|]. by eapply Hsend.
Qed.

Lemma refused_connection_is_never_served_witness :
  let s1 := {| manager := manager paired; tasks := tasks paired; next_socket := 3;
               trace := trace paired ++ [Close 2 1008] |} in
  let relayed := chat_message_msg (JStr "b-a") "a" (JStr "hi") in
  let s2 := {| manager := manager paired; tasks := tasks paired; next_socket := 3;
               trace := trace s1 ++ [SendJson 1 relayed; SendJson 0 relayed] |} in
  manager s1 = manager paired
  ∧ tasks s1 = tasks paired
  ∧ trace s1 = trace paired ++ [Close 2 1008]
  ∧ (2 ∉ websocket <$> clients (manager s2))
  ∧ task_of 2 (tasks s2) = None
  ∧ (Accept 2 ∉ trace s2)
  ∧ ∀ m, SendJson 2 m ∉ trace s2.
Proof.
  intros s1 relayed s2.
  apply (refused_connection_is_never_served paired s1 s2 JWTError
           [Receive 0 (text [("type", JStr "chat_message"); ("session_id", JStr "b-a");
                             ("content", JStr "hi")])]).
  - apply (reachable_run [connect "a"; connect "b"] initial); [constructor|reflexivity].
  - by left.
  - reflexivity.
  - reflexivity.
Defined.

(** X16.  The manager does not notice that an endpoint has died.  A waiting
    client whose endpoint ended on an unparseable text stays at the head of
    the waiting list, and the next client to connect is paired with it: the
    session is registered with the dead client as partner and the waiting
    list is empty again. *)
Theorem dead_waiting_client_is_still_matched
    (s : System) (u : ChatUser) (name : string) :
  reachable s ->
  waiting_users (manager s) = [u] ->
  is_Some (task_of (websocket u) (tasks s)) ->
  ∃ s1 s2,
    step s (Receive (websocket u) None) = Some s1
    ∧ task_of (websocket u) (tasks s1) = None
    ∧ waiting_users (manager s1) = [u]
    ∧ step s1 (Connect (Payload (Some name))) = Some s2
    ∧ waiting_users (manager s2) = []
    ∧ Dict.get (name +:+ "-" +:+ username u) (active_pairs (manager s2))
      = Some [{| username := name; websocket := next_socket s |}; u]
    ∧ task_of (websocket u) (tasks s2) = None.
Proof.
  intros Hreach Hwait [t Ht].
  pose proof (reachable_wf s Hreach) as Hwf.
  assert (Hlt : websocket u < next_socket s) by (by eapply task_of_bound).
  exists (crashed (websocket u) s). eexists. split.
  { by eapply step_receive_raise. }
  split; [apply task_of_drop|]. split; [done|]. split; [reflexivity|].
  unfold on_connect, crashed. simpl.
  destruct (manager s) as [w pairs]. simpl in Hwait. subst w.
  rewrite add_user_match. simpl. split; [done|]. split; [apply get_set_eq|].
  apply task_of_None. rewrite fmap_app, not_elem_of_app. split.
  - apply task_of_None, task_of_drop.
  - simpl. rewrite list_elem_of_singleton. lia.
Qed.

Lemma dead_waiting_client_is_still_matched_witness :
  let s := {| manager := {| waiting_users := [alice]; active_pairs := [] |};
              tasks := [alice]; next_socket := 1; trace := [Accept 0] |} in
  ∃ s1 s2,
    step s (Receive 0 None) = Some s1
    ∧ task_of 0 (tasks s1) = None
    ∧ waiting_users (manager s1) = [alice]
    ∧ step s1 (Connect (Payload (Some "b"))) = Some s2
    ∧ waiting_users (manager s2) = []
    ∧ Dict.get "b-a" (active_pairs (manager s2)) = Some [bob; alice]
    ∧ task_of 0 (tasks s2) = None.
Proof.
  intros s. apply (dead_waiting_client_is_still_matched s alice "b").
  - apply (reachable_run [connect "a"] initial); [constructor|reflexivity].
  - reflexivity.
  - by eexists.
Defined.

(** * The server when sends can fail *)

(** ** Every method is its all-sends-succeed run, cut at the first failure *)

Lemma cut_nil closed r : cut closed r [] = (r, []).
Proof. done. Qed.

Lemma cut_run_silent closed r pm : cut_run closed (r, pm, []) = (r, pm, []).
Proof. done. Qed.

Lemma cut_open closed r out :
  (∀ ws m, SendJson ws m ∈ out -> ws ∉ closed) -> cut closed r out = (r, out).
Proof.
  induction out as [|e out IH]; [done|]. intros Hopen. simpl.
  rewrite IH by (intros ws m Hin; apply (Hopen ws m); by right).
  destruct e as [ws|ws code|ws m]; try done.
  rewrite bool_decide_false; [done|]. apply (Hopen ws m). left.
Qed.

Lemma cut_sends_cons closed (r : result unit) ws m out :
  cut closed r (SendJson ws m :: out)
  = if bool_decide (ws ∈ closed) then (Raise WebSocketDisconnect, [])
    else let '(r', out') := cut closed r out in (r', SendJson ws m :: out').
Proof. done. Qed.

Lemma live_for_each_send {A} closed (xs : list A) (ws : A -> WebSocket) (msg : A -> json) pm :
  for_each xs (λ x, Live.send_json closed (ws x) (msg x)) pm
  = cut_run closed (Ok tt, pm, (λ x, SendJson (ws x) (msg x)) <$> xs).
Proof.
  induction xs as [|x xs IH]; [done|].
  cbn [for_each]. unfold mbind, M_bind, Live.send_json at 1.
  unfold cut_run in *. rewrite fmap_cons, cut_sends_cons.
  destruct (bool_decide (ws x ∈ closed)); [done|]. rewrite IH.
  by destruct (cut closed (Ok ()) _) as [r out].
Qed.

Lemma live_end_session closed k pm :
  Live.end_session closed k pm = cut_run closed (end_session k pm).
Proof.
  destruct k as [| | | |sid| |]; try done.
  destruct (Dict.get sid (active_pairs pm)) as [users|] eqn:Hget.
  - rewrite (end_session_registered _ _ users) by done.
    unfold Live.end_session. run_M. rewrite Hget.
    rewrite bool_decide_true by eauto. run_M. rewrite Hget. run_M.
    rewrite live_for_each_send. unfold cut_run.
    by destruct (cut closed (Ok ()) _) as [r out].
  - rewrite end_session_absent by done.
    unfold Live.end_session. run_M. rewrite Hget.
    rewrite bool_decide_false by (intros [? [=]]). done.
Qed.

Lemma live_add_user closed user pm :
  Live.add_user closed user pm = cut_run closed (add_user user pm).
Proof.
  destruct pm as [[|head rest] pairs]; [done|].
  rewrite add_user_match. unfold Live.add_user, Live.start_session. run_M.
  rewrite get_set_eq. run_loop. rewrite same_user_refl. run_loop.
  unfold Live.send_json, cut_run. simpl.
  destruct (bool_decide (websocket user ∈ closed)); [done|].
  destruct (same_user head user); run_M;
    by destruct (bool_decide (websocket head ∈ closed)).
Qed.

Lemma bind_Raise {A B} (c : M A) (f : A -> M B) pm e pm1 out1 :
  c pm = (Raise e, pm1, out1) -> (c ≫= f) pm = (Raise e, pm1, out1).
Proof. intros H. unfold mbind, M_bind. by rewrite H. Qed.

Lemma live_relay_loop closed chat_user items session_id users pm :
  Live.relay_loop closed chat_user (JObj items) session_id users pm
  = cut_run closed (relay_loop chat_user (JObj items) session_id users pm).
Proof.
  destruct (Dict.get "content" items) as [content|] eqn:Hc.
  - rewrite (relay_loop_content _ _ _ content) by done. unfold Live.relay_loop.
    induction users as [|u users IH]; [done|].
    cbn [for_each]. unfold cut_run in *. rewrite fmap_cons, cut_sends_cons.
    destruct (bool_decide (websocket u ∈ closed)) eqn:Hu.
    + apply bind_Raise. unfold mbind, M_bind, subscript, Live.send_json.
      by rewrite Hc, Hu.
    + rewrite (bind_Ok _ _ pm tt pm
                 [SendJson (websocket u)
                    (chat_message_msg session_id (username chat_user) content)]).
      * rewrite IH. by destruct (cut closed (Ok ()) _) as [r out].
      * unfold mbind, M_bind, subscript, Live.send_json. by rewrite Hc, Hu.
  - rewrite relay_loop_no_content by done. unfold Live.relay_loop.
    destruct users as [|u users]; [done|].
    cbn [for_each]. unfold mbind, M_bind, subscript. by rewrite Hc.
Qed.

Lemma live_on_text closed chat_user loads pm :
  Live.on_text closed chat_user loads pm = cut_run closed (on_text chat_user loads pm).
Proof.
  destruct loads as [message|]; [|done].
  destruct message as [| | | | | |items]; try done.
  destruct (Dict.get "type" items) as [ty|] eqn:Hty; cycle 1.
  { unfold Live.on_text, on_text, subscript. run_M. by rewrite Hty. }
  destruct (str_eq ty "chat_message") eqn:Hchat.
  - destruct (Dict.get "session_id" items) as [k|] eqn:Hsid; cycle 1.
    { unfold Live.on_text, on_text, subscript. run_M. rewrite Hty. run_M.
      rewrite Hchat. by rewrite Hsid. }
    destruct k as [| | | |sid| |];
      try (unfold Live.on_text, on_text, subscript; run_M; rewrite Hty; run_M;
           rewrite Hchat; rewrite Hsid; run_M; done).
    apply str_eq_true in Hchat as ->.
    rewrite (on_text_chat_message _ _ sid) by done.
    unfold Live.on_text, subscript. run_M. rewrite Hty. run_M. cbn [str_eq].
    rewrite bool_decide_true by done. rewrite Hsid. run_M.
    destruct (Dict.get sid (active_pairs pm)) as [users|] eqn:Hget.
    + rewrite bool_decide_true by eauto. run_M. rewrite Hget. run_M.
      rewrite live_relay_loop.
      by destruct (cut_run closed _) as [[r pm'] out].
    + rewrite bool_decide_false by (intros [? [=]]). done.
  - destruct (str_eq ty "end_session") eqn:Hend; cycle 1.
    { rewrite (on_text_other_type _ _ ty) by done.
      unfold Live.on_text, subscript. run_M. rewrite Hty. run_M. rewrite Hchat.
      run_M. by rewrite Hend. }
    apply str_eq_true in Hend as ->.
    destruct (Dict.get "session_id" items) as [k|] eqn:Hsid; cycle 1.
    { unfold Live.on_text, on_text, subscript. run_M. rewrite Hty. run_M. cbn [str_eq].
      rewrite bool_decide_false by done. run_M. cbn [str_eq].
      rewrite bool_decide_true by done. by rewrite Hsid. }
    rewrite (on_text_end_session _ _ k) by done. rewrite <-live_end_session.
    unfold Live.on_text, subscript. run_M. rewrite Hty. run_M. cbn [str_eq].
    rewrite bool_decide_false by done. run_M. cbn [str_eq].
    rewrite bool_decide_true by done. rewrite Hsid. run_M.
    by destruct (Live.end_session closed k pm) as [[r pm'] out].
Qed.

(** ** The disconnect handler and the steps *)

Lemma live_on_disconnect closed chat_user pm :
  Live.on_disconnect closed chat_user pm
  = match find (λ entry, user_in chat_user entry.2) (active_pairs pm) with
    | Some (sid, _) =>
        match Dict.get sid (active_pairs pm) with
        | Some users =>
            let '(r, out) := cut closed (Ok tt) (session_end_sends sid users) in
            (r,
             {| waiting_users := match r with
                                 | Ok _ => leave_queue chat_user (waiting_users pm)
                                 | Raise _ => waiting_users pm
                                 end;
                active_pairs := Dict.del sid (active_pairs pm) |},
             out)
        | None =>
            (Ok tt, {| waiting_users := leave_queue chat_user (waiting_users pm);
                       active_pairs := active_pairs pm |}, [])
        end
    | None =>
        (Ok tt, {| waiting_users := leave_queue chat_user (waiting_users pm);
                   active_pairs := active_pairs pm |}, [])
    end.
Proof.
  unfold Live.on_disconnect, leave_queue, session_end_sends. run_M.
  destruct (find _ (active_pairs pm)) as [[sid users0]|].
  - rewrite live_end_session.
    destruct (Dict.get sid (active_pairs pm)) as [users|] eqn:Hget.
    + rewrite (end_session_registered _ _ users) by done. unfold cut_run.
      destruct (cut closed (Ok ()) _) as [[[]|e] out]; run_M; [|done].
      destruct (user_in chat_user (waiting_users pm)); run_M; by rewrite app_nil_r.
    + rewrite end_session_absent by done. unfold cut_run. simpl. run_M.
      destruct pm as [w p]; simpl. destruct (user_in chat_user w); done.
  - run_M. destruct pm as [w p]; simpl. destruct (user_in chat_user w); done.
Qed.

Lemma live_on_disconnect_shrinks closed chat_user pm r pm' out :
  Live.on_disconnect closed chat_user pm = (r, pm', out) ->
  waiting_users pm' `sublist_of` waiting_users pm
  ∧ active_pairs pm' `sublist_of` active_pairs pm.
Proof.
  rewrite live_on_disconnect.
  destruct (find _ _) as [[sid users0]|].
  - destruct (Dict.get sid (active_pairs pm)) as [users|].
    + destruct (cut closed (Ok ()) _) as [[[]|e] out']; intros [= <- <- <-]; simpl;
        split; try done; try apply leave_queue_sublist; apply del_sublist.
    + intros [= <- <- <-]. simpl. split; [apply leave_queue_sublist|done].
  - intros [= <- <- <-]. simpl. split; [apply leave_queue_sublist|done].
Qed.

Lemma live_on_text_manager closed chat_user loads pm r pm' out :
  Live.on_text closed chat_user loads pm = (r, pm', out) ->
  waiting_users pm' = waiting_users pm
  ∧ active_pairs pm' `sublist_of` active_pairs pm.
Proof.
  rewrite live_on_text.
  destruct (on_text_inv chat_user loads pm)
    as [[e He]|[He|[(sid & users & content & _ & He)|(sid & users & _ & He)]]];
    rewrite He; unfold cut_run; destruct (cut closed _ _) as [r' out'];
    intros [= <- <- <-]; simpl; split; try done; apply del_sublist.
Qed.

(** Handling a text or a disconnect only ever shrinks the manager, whether
    sends fail or not. *)
Lemma live_step_shrinks s e s' :
  Live.step s e = Some s' -> (∀ tok closed, e ≠ Live.Connect tok closed) ->
  waiting_users (manager s') `sublist_of` waiting_users (manager s)
  ∧ active_pairs (manager s') `sublist_of` active_pairs (manager s)
  ∧ tasks s' `sublist_of` tasks s
  ∧ next_socket s' = next_socket s.
Proof.
  intros Hstep Hne.
  destruct e as [tok closed|ws loads closed|ws closed];
    [by destruct (Hne tok closed)| |]; simpl in Hstep.
  - destruct (task_of ws (tasks s)) as [chat_user|]; [simpl in Hstep|done].
    injection Hstep as <-. unfold Live.on_receive.
    destruct (Live.on_text closed chat_user loads (manager s)) as [[r pm] out] eqn:Htext.
    apply live_on_text_manager in Htext as [Hw Hp].
    destruct r as [[]|e]; simpl.
    { rewrite Hw. done. }
    destruct e; simpl; try (rewrite Hw; repeat split; try done; apply drop_task_sublist).
    destruct (Live.on_disconnect closed chat_user pm) as [[r2 pm2] out2] eqn:Hdisc.
    apply live_on_disconnect_shrinks in Hdisc as [Hw2 Hp2]. simpl.
    rewrite <-Hw. repeat split; try done; try apply drop_task_sublist.
    by etrans.
  - destruct (task_of ws (tasks s)) as [chat_user|]; [simpl in Hstep|done].
    destruct (Live.on_disconnect _ chat_user (manager s)) as [[r pm] out] eqn:Hdisc.
    apply live_on_disconnect_shrinks in Hdisc as [Hw Hp].
    injection Hstep as <-. simpl. repeat split; try done. apply drop_task_sublist.
Qed.

Lemma sublist_keys_NoDup {V} (d d' : Dict.t V) :
  d' `sublist_of` d -> NoDup (Dict.keys d) -> NoDup (Dict.keys d').
Proof.
  intros Hsub Hnd. eapply sublist_NoDup; [exact Hnd|].
  unfold Dict.keys. by apply fmap_sublist.
Qed.

Lemma live_on_connect_tasks s tok closed :
  manager (Live.on_connect s tok closed) = manager (on_connect s tok)
  ∧ next_socket (Live.on_connect s tok closed) = next_socket (on_connect s tok)
  ∧ tasks (Live.on_connect s tok closed) `sublist_of` tasks (on_connect s tok).
Proof.
  unfold Live.on_connect, on_connect. destruct tok as [|[name|]]; try done.
  rewrite live_add_user.
  destruct (add_user _ (manager s)) as [[r pm] out] eqn:Hadd. unfold cut_run.
  assert (r = Ok tt) as ->.
  { destruct (manager s) as [[|head rest] pairs].
    - rewrite add_user_wait in Hadd. by injection Hadd as <-.
    - rewrite add_user_match in Hadd. by injection Hadd as <-. }
  destruct (cut closed (Ok ()) out) as [[[]|e] out']; simpl; repeat split; try done.
  by apply sublist_inserts_r.
Qed.

Lemma live_wf_step s e s' : wf s -> Live.step s e = Some s' -> wf s'.
Proof.
  intros Hwf Hstep.
  destruct e as [tok closed|ws loads closed|ws closed].
  - injection Hstep as <-.
    destruct (live_on_connect_tasks s tok closed) as (Hm & Hn & Ht).
    pose proof (wf_on_connect s tok Hwf) as Hwf'.
    destruct (Live.on_connect s tok closed) as [pm ts n tr]. simpl in *. subst pm n.
    apply (wf_shrink (on_connect s tok));
      [exact Hwf'|done|apply Hwf'|by apply sublist_submseteq].
  - destruct (live_step_shrinks s _ s' Hstep) as (Hw & Hp & Hts & Hn); [done|].
    destruct s' as [pm ts n tr]. simpl in *. subst n.
    apply wf_shrink; [done| | |by apply sublist_submseteq].
    + by apply sublist_submseteq, clients_sublist.
    + eapply sublist_keys_NoDup; [exact Hp|apply Hwf].
  - destruct (live_step_shrinks s _ s' Hstep) as (Hw & Hp & Hts & Hn); [done|].
    destruct s' as [pm ts n tr]. simpl in *. subst n.
    apply wf_shrink; [done| | |by apply sublist_submseteq].
    + by apply sublist_submseteq, clients_sublist.
    + eapply sublist_keys_NoDup; [exact Hp|apply Hwf].
Qed.

Lemma live_reachable_wf s : Live.reachable s -> wf s.
Proof.
  induction 1 as [|s e s' _ IH Hstep]; [apply wf_initial|].
  by eapply live_wf_step.
Qed.

Lemma live_reachable_run es : ∀ s s',
  Live.reachable s -> Live.run s es = Some s' -> Live.reachable s'.
Proof.
  induction es as [|e es IH]; simpl; intros s s' Hs.
  - by intros [= <-].
  - destruct (Live.step s e) as [s1|] eqn:Hstep; [simpl|done].
    apply IH. by eapply Live.reachable_step.
Qed.

Lemma live_absent_step s e s' ws :
  wf s -> Live.step s e = Some s' -> absent ws s -> absent ws s'.
Proof.
  intros Hwf Hstep [Hlt Hc]. unfold absent.
  destruct e as [tok closed|w loads closed|w closed].
  - injection Hstep as <-.
    destruct (live_on_connect_tasks s tok closed) as (-> & -> & _).
    assert (Hold : absent ws (on_connect s tok)); [|exact Hold].
    eapply (absent_step s (Connect tok)); [done|done|by split].
  - destruct (live_step_shrinks s _ s' Hstep) as (Hw & Hp & _ & ->); [done|].
    split; [done|]. eapply not_in_sublist; [|exact Hc]. by apply clients_sublist.
  - destruct (live_step_shrinks s _ s' Hstep) as (Hw & Hp & _ & ->); [done|].
    split; [done|]. eapply not_in_sublist; [|exact Hc]. by apply clients_sublist.
Qed.

Lemma live_absent_run es : ∀ s s' ws,
  Live.reachable s -> Live.run s es = Some s' -> absent ws s -> absent ws s'.
Proof.
  induction es as [|e es IH]; simpl; intros s s' ws Hreach.
  - by intros [= <-].
  - destruct (Live.step s e) as [s1|] eqn:Hstep; [simpl|done].
    intros Hrun Habs. apply (IH s1 s' ws); [by eapply Live.reachable_step|done|].
    eapply live_absent_step; [by apply live_reachable_wf|exact Hstep|done].
Qed.

(** ** Sends that go through, sends that fail *)

Lemma cut_result closed (r : result unit) out r' out' :
  cut closed r out = (r', out') ->
  (r' = r ∨ r' = Raise WebSocketDisconnect) ∧ out' `prefix_of` out.
Proof.
  revert r' out'. induction out as [|e out IH]; simpl; intros r' out'.
  - intros [= <- <-]. split; [by left|done].
  - destruct (cut closed r out) as [r1 out1].
    destruct (IH r1 out1 eq_refl) as [Hr Hpre].
    destruct e as [ws|ws code|ws m]; try (intros [= <- <-]; split; [done|by apply prefix_cons]).
    destruct (bool_decide (ws ∈ closed)); intros [= <- <-].
    + split; [by right|apply prefix_nil].
    + split; [done|by apply prefix_cons].
Qed.






(** C4: the disconnect of the client listed first in its session.  The
    handler finds the session and [end_session] pops it, then sends
    [session_end] to the members in the order of the list, the leaver first:
    that send is on the websocket that has just closed, it raises, and the
    loop never reaches the partner.  The session is unregistered, the
    leaver's endpoint is gone, and nothing at all has been sent. *)
Theorem disconnect_of_first_member_notifies_nobody
    (s : System) (a : ChatUser) (rest : list ChatUser) (session_id : string)
    (closed : list WebSocket) :
  Live.reachable s ->
  Dict.get session_id (active_pairs (manager s)) = Some (a :: rest) ->
  is_Some (task_of (websocket a) (tasks s)) ->
  Live.step s (Live.Disconnect (websocket a) closed)
  = Some {| manager := {| waiting_users := waiting_users (manager s);
                          active_pairs := Dict.del session_id (active_pairs (manager s)) |};
            tasks := drop_task (websocket a) (tasks s);
            next_socket := next_socket s;
            trace := trace s |}.
Proof.
  intros Hwf%live_reachable_wf Hget [chat_user Htask].
  pose proof (task_of_websocket _ _ _ Htask) as Hws.
  assert (Hfind : find (λ entry, user_in chat_user entry.2) (active_pairs (manager s))
                  = Some (session_id, a :: rest)).
  { destruct (wf_members_NoDup s Hwf) as (_ & Hm & _).
    apply find_member; [done|done|]. apply user_in_spec. rewrite Hws. simpl. left. }
  simpl. rewrite Htask. simpl. rewrite live_on_disconnect, Hfind, Hget.
  unfold session_end_sends. simpl. rewrite bool_decide_true by left.
  by rewrite app_nil_r.
Qed.

Lemma disconnect_of_first_member_notifies_nobody_witness :
  Live.step paired (Live.Disconnect 1 [])
  = Some {| manager := {| waiting_users := []; active_pairs := [] |};
            tasks := [alice];
            next_socket := 2;
            trace := trace paired |}.
Proof.
  apply (disconnect_of_first_member_notifies_nobody paired bob [alice] "b-a" []).
  - apply (live_reachable_run
             [Live.Connect (Payload (Some "a")) []; Live.Connect (Payload (Some "b")) []]
             initial); [constructor|reflexivity].
  - reflexivity.
  - by eexists.
Defined.

(** ** Texts that are not well-formed messages *)

Lemma live_receive_ignored s ws chat_user loads closed :
  task_of ws (tasks s) = Some chat_user ->
  on_text chat_user loads (manager s) = (Ok tt, manager s, []) ->
  Live.step s (Live.Receive ws loads closed) = Some s
  ∧ Live.on_text closed chat_user loads (manager s) = (Ok tt, manager s, []).
Proof.
  intros Htask Hrun.
  assert (Hlive : Live.on_text closed chat_user loads (manager s) = (Ok tt, manager s, []))
    by (by rewrite live_on_text, Hrun).
  split; [|done]. simpl. rewrite Htask. simpl. unfold Live.on_receive. rewrite Hlive.
  destruct s. simpl. by rewrite app_nil_r.
Qed.

Lemma live_receive_raise s ws chat_user loads closed e :
  task_of ws (tasks s) = Some chat_user ->
  e ≠ WebSocketDisconnect ->
  on_text chat_user loads (manager s) = (Raise e, manager s, []) ->
  Live.step s (Live.Receive ws loads closed) = Some (crashed ws s)
  ∧ Live.on_text closed chat_user loads (manager s) = (Raise e, manager s, []).
Proof.
  intros Htask He Hrun.
  assert (Hlive : Live.on_text closed chat_user loads (manager s) = (Raise e, manager s, []))
    by (by rewrite live_on_text, Hrun).
  split; [|done]. simpl. rewrite Htask. simpl. unfold Live.on_receive. rewrite Hlive.
  unfold crashed. rewrite app_nil_r. by destruct e.
Qed.

Lemma ignored_text_run chat_user loads pm :
  ignored_text pm loads = true -> on_text chat_user loads pm = (Ok tt, pm, []).
Proof.
  destruct loads as [[| | | | | |items]|]; try done. simpl.
  destruct (Dict.get "type" items) as [ty|] eqn:Hty; [|done].
  destruct (str_eq ty "chat_message") eqn:Hchat; cycle 1.
  { intros Hend%negb_true_iff. by eapply on_text_other_type. }
  apply str_eq_true in Hchat as ->.
  destruct (Dict.get "content" items) eqn:Hc; [done|].
  destruct (Dict.get "session_id" items) as [k|] eqn:Hsid; [|done].
  destruct k as [| | | |sid| |]; try done;
    try (intros _; unfold on_text, subscript; run_M; rewrite Hty; run_M; cbn [str_eq];
         rewrite bool_decide_true by done; rewrite Hsid; run_M; done).
  destruct (Dict.get sid (active_pairs pm)) eqn:Hget; [done|]. intros _.
  rewrite (on_text_chat_message _ _ sid) by done. by rewrite Hget.
Qed.

Lemma fatal_text_run chat_user loads pm :
  fatal_text pm loads = true ->
  ∃ e, e ≠ WebSocketDisconnect ∧ on_text chat_user loads pm = (Raise e, pm, []).
Proof.
  destruct loads as [message|]; [|by exists JSONDecodeError].
  destruct message as [| | | | | |items]; try by exists TypeError.
  simpl. destruct (Dict.get "type" items) as [ty|] eqn:Hty; cycle 1.
  { intros _. exists (KeyError (JStr "type")). split; [done|].
    unfold on_text, subscript. run_M. by rewrite Hty. }
  destruct (str_eq ty "chat_message") eqn:Hchat.
  - apply str_eq_true in Hchat as ->.
    destruct (Dict.get "session_id" items) as [k|] eqn:Hsid; cycle 1.
    { intros _. exists (KeyError (JStr "session_id")). split; [done|].
      unfold on_text, subscript. run_M. rewrite Hty. run_M. cbn [str_eq].
      rewrite bool_decide_true by done. by rewrite Hsid. }
    destruct k as [| | | |sid| |]; try done.
    destruct (Dict.get "content" items) eqn:Hc; [done|].
    destruct (Dict.get sid (active_pairs pm)) as [[|u users]|] eqn:Hget; try done.
    intros _. exists (KeyError (JStr "content")). split; [done|].
    rewrite (on_text_chat_message _ _ sid) by done. rewrite Hget.
    by rewrite relay_loop_no_content.
  - destruct (str_eq ty "end_session") eqn:Hend; [|done].
    apply str_eq_true in Hend as ->.
    destruct (Dict.get "session_id" items) as [k|] eqn:Hsid; [done|].
    intros _. exists (KeyError (JStr "session_id")). split; [done|].
    unfold on_text, subscript. run_M. rewrite Hty. run_M. cbn [str_eq].
    rewrite bool_decide_false by done. run_M. cbn [str_eq].
    rewrite bool_decide_true by done. by rewrite Hsid.
Qed.

(** C5, as the code has it.  On a running endpoint, whatever the state of
    the other websockets:
    - a decoded object whose ["type"] is neither ["chat_message"] nor
      ["end_session"] is ignored, and so is a ["chat_message"] that lacks
      ["content"] when its ["session_id"] names no registered session
      (["content"] is never read): the server state is unchanged and the
      endpoint keeps running;
    - a text that does not decode, is not an object or has no ["type"], a
      ["chat_message"] or ["end_session"] without ["session_id"], and a
      ["chat_message"] without ["content"] that names a registered session,
      raise an exception the endpoint does not catch: the endpoint ends,
      nothing is sent, and the waiting list and the registry stay as they
      were, the connection's own entries included;
    - more generally, when handling a text raises anything but
      [WebSocketDisconnect], the manager is unchanged and nothing has been
      sent. *)
Theorem malformed_text_is_skipped_or_ends_the_endpoint
    (s : System) (ws : WebSocket) (chat_user : ChatUser) :
  task_of ws (tasks s) = Some chat_user ->
  (∀ loads closed,
     ignored_text (manager s) loads = true ->
     Live.step s (Live.Receive ws loads closed) = Some s)
  ∧ (∀ loads closed,
       fatal_text (manager s) loads = true ->
       Live.step s (Live.Receive ws loads closed) = Some (crashed ws s))
  ∧ (∀ loads closed e pm' out,
       e ≠ WebSocketDisconnect ->
       Live.on_text closed chat_user loads (manager s) = (Raise e, pm', out) ->
       pm' = manager s ∧ out = []
       ∧ Live.step s (Live.Receive ws loads closed) = Some (crashed ws s)).
Proof.
  intros Htask. split; [|split].
  - intros loads closed Hskip.
    by apply (live_receive_ignored s ws chat_user), ignored_text_run.
  - intros loads closed Hbad.
    destruct (fatal_text_run chat_user loads (manager s) Hbad) as (e & He & Hrun).
    by apply (live_receive_raise s ws chat_user loads closed e).
  - intros loads closed e pm' out He. rewrite live_on_text.
    destruct (on_text_inv chat_user loads (manager s))
      as [[e' Hrun]|[Hrun|[(sid & users & content & _ & Hrun)|(sid & users & _ & Hrun)]]];
      rewrite Hrun; unfold cut_run.
    + simpl. intros [= <- <- <-]. split; [done|]. split; [done|].
      by apply (live_receive_raise s ws chat_user loads closed e').
    + done.
    + destruct (cut closed _ _) as [r' out'] eqn:Hcut.
      apply cut_result in Hcut as [[-> | ->] _]; intros [=]; congruence.
    + destruct (cut closed _ _) as [r' out'] eqn:Hcut.
      apply cut_result in Hcut as [[-> | ->] _]; intros [=]; congruence.
Qed.

Lemma malformed_text_is_skipped_or_ends_the_endpoint_witness :
  task_of 0 (tasks paired) = Some alice
  ∧ Live.step paired (Live.Receive 0 (text [("type", JStr "typing")]) []) = Some paired
  ∧ Live.step paired (Live.Receive 0 (text [("type", JStr "chat_message");
                                            ("session_id", JStr "nobody")]) [])
    = Some paired
  ∧ Live.step paired (Live.Receive 0 None []) = Some (crashed 0 paired)
  ∧ Live.step paired (Live.Receive 0 (text [("type", JStr "chat_message");
                                            ("session_id", JStr "b-a")]) [])
    = Some (crashed 0 paired)
  ∧ Live.step paired (Live.Receive 0 (text [("type", JStr "end_session");
                                            ("session_id", JArr [])]) [1])
    = Some (crashed 0 paired).
Proof.
  destruct (malformed_text_is_skipped_or_ends_the_endpoint paired 0 alice eq_refl)
    as (Hskip & Hfatal & Hraise).
  split; [reflexivity|]. split; [apply Hskip; reflexivity|].
  split; [apply Hskip; reflexivity|]. split; [apply Hfatal; reflexivity|].
  split; [apply Hfatal; reflexivity|].
  apply (Hraise _ [1] TypeError (manager paired) []); [done|reflexivity].
Defined.

(** C5, where the claim fails.  [alice] is paired with [bob] and her
    endpoint is running.  A text that is not JSON, and an object without
    ["type"], each end her endpoint ([tasks] loses her) while the registry
    still holds her session; the same happens to a client that is still
    waiting. *)
Lemma malformed_text_can_end_the_endpoint :
  task_of 0 (tasks paired) = Some alice
  ∧ Live.step paired (Live.Receive 0 None [])
    = Some {| manager := manager paired; tasks := [bob];
              next_socket := 2; trace := trace paired |}
  ∧ Live.step paired (Live.Receive 0 (Some (JObj [("session_id", JStr "b-a");
                                                  ("content", JStr "hi")])) [])
    = Some {| manager := manager paired; tasks := [bob];
              next_socket := 2; trace := trace paired |}
  ∧ Live.run initial [Live.Connect (Payload (Some "a")) []; Live.Receive 0 None []]
    = Some {| manager := {| waiting_users := [alice]; active_pairs := [] |};
              tasks := []; next_socket := 1; trace := [Accept 0] |}.
Proof. repeat split. Qed.

(** C6, as the code has it.  A [chat_message] whose ["session_id"] is not a
    key of the registry.  If it is a string, a number, a boolean or [null],
    the lookup answers no and the turn ends normally: no error is returned
    or logged, the server state is unchanged, nothing is sent and the
    endpoint keeps running.  If it is a JSON array or object, the lookup
    itself raises [TypeError], which the endpoint does not catch: the
    manager is unchanged and nothing is sent, but the sender's endpoint
    ends. *)
Theorem chat_message_for_unregistered_id
    (s : System) (ws : WebSocket) (chat_user : ChatUser)
    (items : list (string * json)) (k : json) (closed : list WebSocket) :
  task_of ws (tasks s) = Some chat_user ->
  Dict.get "type" items = Some (JStr "chat_message") ->
  Dict.get "session_id" items = Some k ->
  (∀ sid, k = JStr sid -> Dict.get sid (active_pairs (manager s)) = None) ->
  Live.on_text closed chat_user (Some (JObj items)) (manager s)
  = (match k with
     | JArr _ | JObj _ => Raise TypeError
     | _ => Ok tt
     end, manager s, [])
  ∧ Live.step s (Live.Receive ws (Some (JObj items)) closed)
    = Some match k with
           | JArr _ | JObj _ => crashed ws s
           | _ => s
           end.
Proof.
  intros Htask Hty Hsid Hunknown.
  assert (Hrun : on_text chat_user (Some (JObj items)) (manager s)
                 = (match k with
                    | JArr _ | JObj _ => Raise TypeError
                    | _ => Ok tt
                    end, manager s, [])).
  { assert (Hk : (∃ sid, k = JStr sid) ∨ ∀ sid, k ≠ JStr sid)
      by (destruct k; eauto).
    destruct Hk as [[sid ->]|Hk].
    - rewrite (on_text_chat_message _ _ sid) by done. by rewrite Hunknown.
    - by apply (on_text_session_key _ _ "chat_message"); [|left| |]. }
  destruct k;
    try (destruct (live_receive_ignored s ws chat_user _ closed Htask Hrun); done);
    destruct (live_receive_raise s ws chat_user _ closed TypeError Htask ltac:(done) Hrun);
    done.
Qed.

Lemma chat_message_for_unregistered_id_witness :
  (Live.on_text [] alice (text [("type", JStr "chat_message");
                               ("session_id", JStr "nobody");
                               ("content", JStr "hi")]) (manager paired)
   = (Ok tt, manager paired, [])
   ∧ Live.step paired (Live.Receive 0 (text [("type", JStr "chat_message");
                                             ("session_id", JStr "nobody");
                                             ("content", JStr "hi")]) [])
     = Some paired)
  ∧ (Live.on_text [] alice (text [("type", JStr "chat_message");
                                  ("session_id", JArr [JStr "b-a"]);
                                  ("content", JStr "hi")]) (manager paired)
     = (Raise TypeError, manager paired, [])
     ∧ Live.step paired (Live.Receive 0 (text [("type", JStr "chat_message");
                                               ("session_id", JArr [JStr "b-a"]);
                                               ("content", JStr "hi")]) [])
       = Some (crashed 0 paired)).
Proof.
  split.
  - apply (chat_message_for_unregistered_id paired 0 alice _ (JStr "nobody") []);
      try reflexivity. by intros sid [= <-].
  - apply (chat_message_for_unregistered_id paired 0 alice _ (JArr [JStr "b-a"]) []);
      try reflexivity. done.
Defined.

(** C6, where the claim fails.  For an unknown string id the relay does not
    fail: the turn returns normally and no error is produced.  For an id
    that is a JSON array (in no registry) the sender's connection does not
    stay alive: [alice]'s endpoint ends. *)
Lemma unknown_session_is_no_error_and_can_end_the_endpoint :
  Live.on_text [] alice (Some (JObj [("type", JStr "chat_message");
                                     ("session_id", JStr "nobody");
                                     ("content", JStr "hi")])) (manager paired)
  = (Ok tt, manager paired, [])
  ∧ task_of 0 (tasks paired) = Some alice
  ∧ Live.step paired (Live.Receive 0 (Some (JObj [("type", JStr "chat_message");
                                                  ("session_id", JArr []);
                                                  ("content", JStr "hi")])) [])
    = Some {| manager := manager paired; tasks := [bob];
              next_socket := 2; trace := trace paired |}.
Proof. repeat split. Qed.

(** ** Ending a session by message, and the second teardown *)

Lemma get_sublist_None {V} (d d' : Dict.t V) k :
  d' `sublist_of` d -> Dict.get k d = None -> Dict.get k d' = None.
Proof.
  induction 1 as [|[k' v] d1 d2 Hsub IH|[k' v] d1 d2 Hsub IH]; simpl; [done| |].
  - destruct (decide (k = k')); [done|auto].
  - destruct (decide (k = k')); [done|auto].
Qed.




(** X5.  An [end_session] message is honoured whoever sends it: received
    on any running endpoint, member of the session or not, it unregisters
    the session, and no member is put back in the waiting list, then or
    later.  This holds whether the [session_end] sends go through or not.
    When they all go through, each member is sent [session_end], the
    waiting list is untouched and every endpoint keeps running. *)
Theorem end_session_message_unregisters_any_session
    (s : System) (ws : WebSocket) (chat_user : ChatUser)
    (items : list (string * json)) (session_id : string) (users : list ChatUser)
    (closed : list WebSocket) :
  Live.reachable s ->
  task_of ws (tasks s) = Some chat_user ->
  Dict.get "type" items = Some (JStr "end_session") ->
  Dict.get "session_id" items = Some (JStr session_id) ->
  Dict.get session_id (active_pairs (manager s)) = Some users ->
  ∃ s',
    Live.step s (Live.Receive ws (Some (JObj items)) closed) = Some s'
    ∧ Dict.get session_id (active_pairs (manager s')) = None
    ∧ (∀ es s'' u,
         Live.run s' es = Some s'' -> u ∈ users ->
         websocket u ∉ websocket <$> clients (manager s''))
    ∧ ((∀ u, u ∈ users -> websocket u ∉ closed) ->
       manager s' = {| waiting_users := waiting_users (manager s);
                       active_pairs := Dict.del session_id (active_pairs (manager s)) |}
       ∧ tasks s' = tasks s
       ∧ trace s' = trace s ++ session_end_sends session_id users).
Proof.
  intros Hreach Htask Hty Hsid Hget.
  pose proof (live_reachable_wf s Hreach) as Hwf.
  set (pm1 := {| waiting_users := waiting_users (manager s);
                 active_pairs := Dict.del session_id (active_pairs (manager s)) |}).
  assert (Htext : Live.on_text closed chat_user (Some (JObj items)) (manager s)
                  = cut_run closed (Ok tt, pm1, session_end_sends session_id users)).
  { rewrite live_on_text, (on_text_end_session _ _ (JStr session_id)) by done.
    by rewrite (end_session_registered _ _ users). }
  assert (Hstep : ∃ s', Live.step s (Live.Receive ws (Some (JObj items)) closed) = Some s'
            ∧ s' = Live.on_receive s ws chat_user (Some (JObj items)) closed).
  { eexists. split; [|reflexivity]. simpl. by rewrite Htask. }
  destruct Hstep as (s' & Hstep & Hs'). exists s'. split; [done|].
  assert (Hsub : waiting_users (manager s') `sublist_of` waiting_users pm1
                 ∧ active_pairs (manager s') `sublist_of` active_pairs pm1
                 ∧ next_socket s' = next_socket s).
  { rewrite Hs'. unfold Live.on_receive. rewrite Htext. unfold cut_run.
    destruct (cut closed _ _) as [r out] eqn:Hcut.
    apply cut_result in Hcut as [[-> | ->] _]; simpl; [done|].
    destruct (Live.on_disconnect closed chat_user pm1) as [[r2 pm2] out2] eqn:Hdisc.
    by apply live_on_disconnect_shrinks in Hdisc as [? ?]. }
  destruct Hsub as (Hw & Hp & Hn).
  split; [|split].
  - eapply get_sublist_None; [exact Hp|]. simpl. apply get_del_eq.
  - intros es s'' u Hrun Hu.
    eapply (live_absent_run es s' s''); [by eapply Live.reachable_step|done|].
    destruct (member_absent_after_del s session_id users u [] [] Hwf Hget Hu) as [Hlt Hc].
    split; [by rewrite Hn|].
    eapply not_in_sublist; [|exact Hc]. by apply clients_sublist.
  - intros Hopen. rewrite Hs'. unfold Live.on_receive. rewrite Htext. unfold cut_run.
    rewrite cut_open; [done|].
    intros w m (u & [= -> _] & Hu)%list_elem_of_fmap. by apply Hopen.
Qed.

Lemma end_session_message_unregisters_any_session_witness :
  let carol := {| username := "c"; websocket := 2 |} in
  let s := {| manager := {| waiting_users := [carol];
                            active_pairs := [("b-a", [bob; alice])] |};
              tasks := [alice; bob; carol];
              next_socket := 3;
              trace := trace paired ++ [Accept 2] |} in
  ∃ s',
    Live.step s (Live.Receive 2 (text [("type", JStr "end_session");
                                       ("session_id", JStr "b-a")]) [])
    = Some s'
    ∧ Dict.get "b-a" (active_pairs (manager s')) = None
    ∧ (∀ es s'' u,
         Live.run s' es = Some s'' -> u ∈ [bob; alice] ->
         websocket u ∉ websocket <$> clients (manager s''))
    ∧ ((∀ u, u ∈ [bob; alice] -> websocket u ∉ []) ->
       manager s' = {| waiting_users := [carol]; active_pairs := [] |}
       ∧ tasks s' = [alice; bob; carol]
       ∧ trace s' = trace s ++ session_end_sends "b-a" [bob; alice]).
Proof.
  intros carol s.
  apply (end_session_message_unregisters_any_session s 2 carol
           [("type", JStr "end_session"); ("session_id", JStr "b-a")] "b-a"
           [bob; alice] []); try reflexivity.
  apply (live_reachable_run
           [Live.Connect (Payload (Some "a")) []; Live.Connect (Payload (Some "b")) [];
            Live.Connect (Payload (Some "c")) []] initial); [constructor|reflexivity].
Defined.



(** ** What a text can do to the manager *)

(** X11.  Handling an inbound text never adds a client to the waiting list
    nor a session to the registry, whether sends fail or not.  When the
    endpoint is still running afterwards (no send failed and nothing else
    was raised), the waiting list is untouched and the only text that
    changed the manager is an [end_session] whose [session_id] is the id of
    a registered session, of which exactly that entry was removed; in
    particular a [chat_message] then leaves the manager as it is. *)
Theorem text_never_adds_to_the_manager
    (s s' : System) (ws : WebSocket) (loads : option json) (closed : list WebSocket) :
  Live.step s (Live.Receive ws loads closed) = Some s' ->
  next_socket s' = next_socket s
  ∧ waiting_users (manager s') `sublist_of` waiting_users (manager s)
  ∧ active_pairs (manager s') `sublist_of` active_pairs (manager s)
  ∧ (is_Some (task_of ws (tasks s')) ->
     waiting_users (manager s') = waiting_users (manager s)
     ∧ (manager s' = manager s
        ∨ ∃ items sid users,
            loads = Some (JObj items)
            ∧ Dict.get "type" items = Some (JStr "end_session")
            ∧ Dict.get "session_id" items = Some (JStr sid)
            ∧ Dict.get sid (active_pairs (manager s)) = Some users
            ∧ active_pairs (manager s') = Dict.del sid (active_pairs (manager s)))).
Proof.
  intros Hstep.
  destruct (live_step_shrinks s _ s' Hstep) as (Hw & Hp & _ & Hn); [done|].
  repeat (split; [done|]). revert Hstep. simpl.
  destruct (task_of ws (tasks s)) as [chat_user|]; [simpl|done].
  intros [= <-]. unfold Live.on_receive. rewrite live_on_text.
  destruct (on_text chat_user loads (manager s)) as [[r0 pm0] out0] eqn:Hrun.
  unfold cut_run. destruct (cut closed r0 out0) as [r out].
  destruct r as [[]|e]; simpl.
  - intros _.
    destruct (on_text_change _ _ _ _ _ _ Hrun)
      as [->|(items & sid & users & -> & Hty & Hsid & Hget & -> & _)].
    + split; [done|by left].
    + split; [done|]. right. by exists items, sid, users.
  - assert (Hgone : ∀ pm tr, ¬ is_Some (task_of ws (tasks
                       {| manager := pm; tasks := drop_task ws (tasks s);
                          next_socket := next_socket s; trace := tr |}))).
    { intros pm tr. simpl. rewrite task_of_drop. by intros [? [=]]. }
    destruct e; try (intros H; by destruct (Hgone _ _ H)).
    destruct (Live.on_disconnect closed chat_user pm0) as [[r2 pm2] out2].
    intros H. by destruct (Hgone _ _ H).
Qed.

Lemma text_never_adds_to_the_manager_witness :
  let relayed := chat_message_msg (JStr "b-a") "a" (JStr "hi") in
  let s' := {| manager := manager paired; tasks := tasks paired; next_socket := 2;
               trace := trace paired ++ [SendJson 1 relayed; SendJson 0 relayed] |} in
  next_socket s' = next_socket paired
  ∧ waiting_users (manager s') `sublist_of` waiting_users (manager paired)
  ∧ active_pairs (manager s') `sublist_of` active_pairs (manager paired)
  ∧ (is_Some (task_of 0 (tasks s')) ->
     waiting_users (manager s') = waiting_users (manager paired)
     ∧ (manager s' = manager paired
        ∨ ∃ items sid users,
            text [("type", JStr "chat_message"); ("session_id", JStr "b-a");
                  ("content", JStr "hi")] = Some (JObj items)
            ∧ Dict.get "type" items = Some (JStr "end_session")
            ∧ Dict.get "session_id" items = Some (JStr sid)
            ∧ Dict.get sid (active_pairs (manager paired)) = Some users
            ∧ active_pairs (manager s') = Dict.del sid (active_pairs (manager paired)))).
Proof.
  intros relayed s'.
  apply (text_never_adds_to_the_manager paired s' 0 _ []). reflexivity.
Defined.

(** ** Accepting a websocket *)


